(** * mirrorselect: a shallow embedding of [mirrorselect/main.py] and
      of the [set_version] command of [setup.py]

    The first part embeds the program: Python text and byte strings, the
    effects of the command line tool (messages, standard output,
    configuration writes, exceptions), the part of [optparse] that
    [_parse_args] relies on, the methods of [MirrorSelect], the selection
    engine ([mirrorselect/selectors.py]), which is modelled from the
    specification, and [set_version].  The other parts state and prove the
    properties. *)

From Stdlib Require Import ZArith QArith Lqa List String Ascii Bool Lia.
From Stdlib Require Import Permutation Sorted DecimalString.
Import ListNotations.

Local Open Scope list_scope.
Local Open Scope string_scope.

(* ================================================================== *)
(** * Part I: the embedding *)
(* ================================================================== *)

(** ** Python strings

    A text string ([str]) is represented by its UTF-8 encoding, one [ascii]
    per byte.  Comparing encodings byte by byte orders them as Python orders
    the texts (by code point), and concatenation commutes with encoding. *)

(** One double quote character, the delimiter printed around the mirrors. *)
Definition dquote : string := String (ascii_of_nat 34) EmptyString.

(** The line feed that ends several messages. *)
Definition nl : string := String (ascii_of_nat 10) EmptyString.

(** [sep.join(l)] *)
Fixpoint join (sep : string) (l : list string) : string :=
  match l with
  | [] => EmptyString
  | [s] => s
  | s :: rest => s ++ sep ++ join sep rest
  end.

(** [sub in s]: [sub] occurs in [s] at some position. *)
Fixpoint contains (sub s : string) : bool :=
  prefix sub s ||
  match s with
  | EmptyString => false
  | String _ s' => contains sub s'
  end.

(** [s.split(sep)] for a one-character separator: the fields between the
    occurrences of [sep], empty fields included. *)
Fixpoint split_acc (sep : ascii) (field : string) (s : string) : list string :=
  match s with
  | EmptyString => [field]
  | String c s' =>
      if Ascii.eqb c sep then field :: split_acc sep EmptyString s'
      else split_acc sep (field ++ String c EmptyString) s'
  end.

Definition split (sep : ascii) (s : string) : list string :=
  split_acc sep EmptyString s.

(** [s.endswith(c)] for one character. *)
Fixpoint endswith (c : ascii) (s : string) : bool :=
  match s with
  | EmptyString => false
  | String d EmptyString => Ascii.eqb d c
  | String _ s' => endswith c s'
  end.

(** A stable insertion sort by a comparison [le]: an element is placed
    before the first one it compares below or equal to, so elements that
    compare equal keep the order they came in. *)
Section InsertionSort.

Context {A : Type} (le : A -> A -> bool).

Fixpoint insert_by (x : A) (l : list A) : list A :=
  match l with
  | [] => [x]
  | y :: l' => if le x y then x :: l else y :: insert_by x l'
  end.

Fixpoint sort_by (l : list A) : list A :=
  match l with
  | [] => []
  | x :: l' => insert_by x (sort_by l')
  end.

End InsertionSort.

(** [sorted(l)] on a list of strings.  Python's sort is stable; on strings,
    which the comparison orders totally, the result is the one ascending
    arrangement, which the insertion sort computes. *)
Definition sorted (l : list string) : list string := sort_by String.leb l.

(** The values a host list holds: text ([str]) or bytes, which alone has a
    [decode] method. *)
Inductive pystr : Type :=
| Str (s : string)
| Bytes (b : string).

Definition has_decode (h : pystr) : bool :=
  match h with
  | Str _ => false
  | Bytes _ => true
  end.

(** Well-formed UTF-8: [need] continuation bytes are still expected, the
    next of them within [lo..hi] (the first continuation byte after E0, ED,
    F0 and F4 is restricted, which excludes overlong forms, surrogates and
    code points above U+10FFFF). *)
Fixpoint utf8_valid_from (need : nat) (lo hi : N) (bs : list N) : bool :=
  match bs with
  | [] => Nat.eqb need 0
  | b :: bs' =>
      match need with
      | O =>
          if (b <? 128)%N then utf8_valid_from 0 128 191 bs'
          else if ((194 <=? b) && (b <=? 223))%N then utf8_valid_from 1 128 191 bs'
          else if (b =? 224)%N then utf8_valid_from 2 160 191 bs'
          else if ((225 <=? b) && (b <=? 236))%N then utf8_valid_from 2 128 191 bs'
          else if (b =? 237)%N then utf8_valid_from 2 128 159 bs'
          else if ((238 <=? b) && (b <=? 239))%N then utf8_valid_from 2 128 191 bs'
          else if (b =? 240)%N then utf8_valid_from 3 144 191 bs'
          else if ((241 <=? b) && (b <=? 243))%N then utf8_valid_from 3 128 191 bs'
          else if (b =? 244)%N then utf8_valid_from 3 128 143 bs'
          else false
      | S k => ((lo <=? b) && (b <=? hi))%N && utf8_valid_from k 128 191 bs'
      end
  end.

Definition utf8_valid (b : string) : bool :=
  utf8_valid_from 0 128 191 (map N_of_ascii (list_ascii_of_string b)).

(** ** Effects

    What a run of the tool does to the outside is recorded as a trace of
    events; a Python exception ends the run. *)

Inductive exn : Type :=
| SystemExit (code : Z)
| IndexError
| AttributeError
| TypeError
| UnicodeDecodeError
| OptionValueError.

(** The ways [OptionParser.parse_args] rejects a command line. *)
Inductive parse_error : Type :=
| NoSuchOption (opt : string)
| AmbiguousOption (opt : string)
| RequiresArgument (opt : string)
| TakesNoValue (opt : string)
| InvalidInteger (opt value : string).

Inductive event : Type :=
| Stdout (line : string)
| PrintHelp
| PrintVersion
| ParserError (e : parse_error)
| OutputWrite (message : string) (level : option Z)
| SetVerbosity (v : Z)
| WriteMakeConf (config_path var mirror_string : string)
| WriteReposConf (config_path var value : string).

(** A computation extends the trace and either returns or raises. *)
Definition M (A : Type) : Type := list event -> list event * (exn + A).

Definition ret {A : Type} (a : A) : M A := fun tr => (tr, inr a).

Definition raise {A : Type} (e : exn) : M A := fun tr => (tr, inl e).

Definition bind {A B : Type} (c : M A) (k : A -> M B) : M B :=
  fun tr =>
    match c tr with
    | (tr', inr a) => k a tr'
    | (tr', inl e) => (tr', inl e)
    end.

Definition emit (e : event) : M unit := fun tr => ((tr ++ [e])%list, inr tt).

Notation "x <- c ;; k" := (bind c (fun x => k))
  (at level 61, c at next level, right associativity).
Notation "c ;;; k" := (bind c (fun _ => k))
  (at level 61, right associativity).
Notation "' pat <- c ;; k" := (bind c (fun x => match x with pat => k end))
  (at level 61, pat pattern, c at next level, right associativity).

(** [if cond: body] *)
Definition when (cond : bool) (body : M unit) : M unit :=
  if cond then body else ret tt.

(** [sys.exit(code)] *)
Definition sys_exit {A : Type} (code : Z) : M A := raise (SystemExit code).

(** [[f(x) for x in l]] for an [f] that may raise. *)
Fixpoint mapM {A B : Type} (f : A -> M B) (l : list A) : M (list B) :=
  match l with
  | [] => ret []
  | x :: l' => y <- f x ;; ys <- mapM f l' ;; ret (y :: ys)
  end.

(** [l[0]] *)
Definition index0 {A : Type} (l : list A) : M A :=
  match l with
  | [] => raise IndexError
  | x :: _ => ret x
  end.

(** [x.decode('utf-8')]: text has no such method, bytes decode when they
    are well-formed UTF-8. *)
Definition decode (h : pystr) : M pystr :=
  match h with
  | Str _ => raise AttributeError
  | Bytes b => if utf8_valid b then ret (Str b) else raise UnicodeDecodeError
  end.

(** The items of [' '.join(hosts)] must all be text. *)
Definition as_text (h : pystr) : M string :=
  match h with
  | Str s => ret s
  | Bytes _ => raise TypeError
  end.

(** ** [MirrorSelect.write_to_output] (main.py, lines 127-131) *)
Definition write_to_output (mirror_string : string) : M unit :=
  emit (Stdout EmptyString) ;;;
  emit (Stdout mirror_string) ;;;
  sys_exit 0.

(** [write_make_conf] and [write_repos_conf] of [mirrorselect.configs]
    rewrite the configuration file; the call is what is recorded. *)
Definition write_make_conf (config_path var mirror_string : string) : M unit :=
  emit (WriteMakeConf config_path var mirror_string).

Definition write_repos_conf (config_path var value : string) : M unit :=
  emit (WriteReposConf config_path var value).

(** ** [MirrorSelect.change_config] (main.py, lines 94-124) *)
Definition config_var (config_path : string) (sync : bool) : string :=
  if sync then
    if contains "repos.conf" config_path then "sync-uri" else "SYNC"
  else "GENTOO_MIRRORS".

Definition change_config (hosts : list pystr) (out : bool)
    (config_path : string) (sync : bool) : M unit :=
  let var := config_var config_path sync in
  first <- index0 hosts ;;
  hosts <- (if has_decode first then mapM decode hosts else ret hosts) ;;
  texts <- mapM as_text hosts ;;
  let joined := join " " texts in
  let mirror_string :=
    if (var =? "sync-uri") && out
    then var ++ " = " ++ joined
    else var ++ "=" ++ dquote ++ joined ++ dquote in
  if out then write_to_output mirror_string
  else if var =? "sync-uri" then write_repos_conf config_path var joined
  else write_make_conf config_path var mirror_string.

(** ** The part of [optparse] that [_parse_args] uses

    [optparse] belongs to Python's library, not to mirrorselect.  Its option
    kinds, its defaults and the way it walks the command line are modelled
    as far as the parser built in [_parse_args] exercises them.  Of the
    integers [int()] reads, a sign, a radix prefix and digits are modelled;
    blanks around the digits and underscores between them are not. *)

Inductive pyval : Type :=
| PyNone
| PyBool (b : bool)
| PyInt (z : Z)
| PyText (s : string).

(** Truth value of a Python object, as [if], [and], [or] and [not] take it. *)
Definition truthy (v : pyval) : bool :=
  match v with
  | PyNone => false
  | PyBool b => b
  | PyInt z => negb (z =? 0)%Z
  | PyText s => negb (s =? EmptyString)
  end.

(** The number a [bool] or an [int] stands for in arithmetic. *)
Definition int_of (v : pyval) : Z :=
  match v with
  | PyBool true => 1
  | PyInt z => z
  | _ => 0
  end.

(** [str(v)] *)
Definition py_str (v : pyval) : string :=
  match v with
  | PyNone => "None"
  | PyBool true => "True"
  | PyBool false => "False"
  | PyInt z => NilZero.string_of_int (Z.to_int z)
  | PyText s => s
  end.

Inductive opt_action : Type :=
| store
| store_true
| store_const
| help
| version.

Inductive opt_type : Type :=
| type_string
| type_int.

(** One [add_option] call: the option strings, [action=], [type=], [dest=],
    [default=] ([None] here when the call gives none) and [const=]. *)
Record Option_ : Type := mkOption {
  opt_strings : list string;
  action : opt_action;
  type : option opt_type;
  dest : option string;
  default : option pyval;
  const : pyval
}.

(** An option object's attributes, a dictionary in insertion order. *)
Definition Values : Type := list (string * pyval).

(** [getattr(values, name)]; every attribute read by the program is set by
    the defaults, and a missing one reads as [None] here. *)
Fixpoint getattr (values : Values) (name : string) : pyval :=
  match values with
  | [] => PyNone
  | (n, v) :: rest => if n =? name then v else getattr rest name
  end.

(** [setattr(values, name, v)] *)
Fixpoint setattr (values : Values) (name : string) (v : pyval) : Values :=
  match values with
  | [] => [(name, v)]
  | (n, v0) :: rest =>
      if n =? name then (n, v) :: rest else (n, v0) :: setattr rest name v
  end.

Fixpoint has_attr (values : Values) (name : string) : bool :=
  match values with
  | [] => false
  | (n, _) :: rest => (n =? name) || has_attr rest name
  end.

Definition is_long (opt : string) : bool := prefix "--" opt.

Definition long_opts (o : Option_) : list string := filter is_long (opt_strings o).

Definition short_opts (o : Option_) : list string :=
  filter (fun s => negb (is_long s)) (opt_strings o).

(** [s.replace('-', '_')] *)
Fixpoint dashes_to_underscores (s : string) : string :=
  match s with
  | EmptyString => EmptyString
  | String c s' =>
      String (if Ascii.eqb c "-" then "_"%char else c) (dashes_to_underscores s')
  end.

(** The attribute an option stores to: [dest=] when given, else the first
    long option string without its dashes, else the first short one's
    letter.  [help] and [version] store nothing. *)
Definition option_dest (o : Option_) : option string :=
  match action o with
  | help | version => None
  | _ =>
      match dest o with
      | Some d => Some d
      | None =>
          match long_opts o, short_opts o with
          | l :: _, _ => Some (dashes_to_underscores (substring 2 (length l - 2) l))
          | [], s :: _ => Some (substring 1 1 s)
          | [], [] => None
          end
      end
  end.

(** The type of an option's argument: a [store] without [type=] takes a
    string, the other actions used here take no argument. *)
Definition option_type (o : Option_) : option opt_type :=
  match action o with
  | store => match type o with Some t => Some t | None => Some type_string end
  | _ => None
  end.

Definition takes_value (o : Option_) : bool :=
  match option_type o with
  | Some _ => true
  | None => false
  end.

(** [Option.get_opt_string]: the first long option string, else the first
    short one. *)
Definition get_opt_string (o : Option_) : string :=
  match long_opts o, short_opts o with
  | l :: _, _ => l
  | [], s :: _ => s
  | [], [] => EmptyString
  end.

(** *** Integers, as [optparse._parse_int] reads them *)

Definition digit_value (c : ascii) : option Z :=
  let n := Z.of_N (N_of_ascii c) in
  if ((48 <=? n) && (n <=? 57))%Z then Some (n - 48)%Z
  else if ((97 <=? n) && (n <=? 102))%Z then Some (n - 87)%Z
  else if ((65 <=? n) && (n <=? 70))%Z then Some (n - 55)%Z
  else None.

Fixpoint digits_value (radix acc : Z) (s : string) : option Z :=
  match s with
  | EmptyString => Some acc
  | String c s' =>
      match digit_value c with
      | Some d => if (d <? radix)%Z then digits_value radix (acc * radix + d)%Z s' else None
      | None => None
      end
  end.

(** [s.lower()] on the letters a radix prefix can hold. *)
Fixpoint lower (s : string) : string :=
  match s with
  | EmptyString => EmptyString
  | String c s' =>
      let n := nat_of_ascii c in
      String (if ((65 <=? n) && (n <=? 90))%nat then ascii_of_nat (n + 32) else c) (lower s')
  end.

Definition drop (n : nat) (s : string) : string := substring n (length s - n) s.

(** The prefix that [int(s, radix)] lets the digits carry. *)
Definition radix_prefix (radix : Z) : string :=
  if (radix =? 16)%Z then "0x"
  else if (radix =? 8)%Z then "0o"
  else if (radix =? 2)%Z then "0b"
  else "?".

(** [int(s, radix)] *)
Definition py_int (s : string) (radix : Z) : option Z :=
  let '(negative, body) :=
    match s with
    | String "-" s' => (true, s')
    | String "+" s' => (false, s')
    | _ => (false, s)
    end in
  let body := if lower (substring 0 2 body) =? radix_prefix radix then drop 2 body else body in
  match body with
  | EmptyString => None
  | _ =>
      match digits_value radix 0 body with
      | Some z => Some (if negative then (- z)%Z else z)
      | None => None
      end
  end.

Definition _parse_int (val : string) : option Z :=
  let p := lower (substring 0 2 val) in
  if p =? "0x" then py_int val 16
  else if p =? "0b" then
    py_int (if drop 2 val =? EmptyString then "0" else drop 2 val) 2
  else if substring 0 1 val =? "0" then py_int val 8
  else py_int val 10.

(** [Option.check_value]: the argument text converted to the option's type. *)
Definition check_value (o : Option_) (value : string) : option pyval :=
  match option_type o with
  | Some type_int =>
      match _parse_int value with
      | Some z => Some (PyInt z)
      | None => None
      end
  | _ => Some (PyText value)
  end.

(** *** Defaults *)

(** [OptionContainer.add_option] keeps, per destination, the last default
    given, and [None] for a destination that never got one. *)
Fixpoint collect_defaults (table : list Option_) (defaults : Values) : Values :=
  match table with
  | [] => defaults
  | o :: rest =>
      let defaults :=
        match option_dest o with
        | None => defaults
        | Some d =>
            match default o with
            | Some v => setattr defaults d v
            | None => if has_attr defaults d then defaults else setattr defaults d PyNone
            end
        end in
      collect_defaults rest defaults
  end.

(** [OptionParser.get_default_values]: a default written as a string is
    converted as the option's argument would be; [None] stands for the
    exception a text that does not convert raises. *)
Fixpoint convert_defaults (table : list Option_) (defaults : Values) : option Values :=
  match table with
  | [] => Some defaults
  | o :: rest =>
      match option_dest o with
      | None => convert_defaults rest defaults
      | Some d =>
          match getattr defaults d with
          | PyText s =>
              match check_value o s with
              | Some v => convert_defaults rest (setattr defaults d v)
              | None => None
              end
          | _ => convert_defaults rest defaults
          end
      end
  end.

Definition get_default_values (table : list Option_) : option Values :=
  convert_defaults table (collect_defaults table []).

(** *** Walking the command line

    [_process_args] reads the arguments left to right.  What it meets is
    independent of the values stored so far, so the walk is split in two:
    [lex] names what each argument is, and [run_items] acts on the items in
    order, stopping at the first that ends the run. *)

Inductive item : Type :=
| Occurrence (o : Option_) (opt : string) (value : option string)
| Positional (arg : string)
| Terminator (rest : list string)
| Rejected (e : parse_error).

Section Parser.

Variable table : list Option_.

Definition find_short (opt : string) : option Option_ :=
  find (fun o => existsb (String.eqb opt) (short_opts o)) table.

Definition all_long_opts : list string := flat_map long_opts table.

Definition find_long (opt : string) : option Option_ :=
  find (fun o => existsb (String.eqb opt) (long_opts o)) table.

(** [_match_abbrev]: the option string itself when it exists, else the one
    option string it abbreviates. *)
Definition _match_long_opt (opt : string) : parse_error + string :=
  if existsb (String.eqb opt) all_long_opts then inr opt
  else
    match filter (prefix opt) all_long_opts with
    | [full] => inr full
    | [] => inl (NoSuchOption opt)
    | _ => inl (AmbiguousOption opt)
    end.

(** [arg.split("=", 1)] *)
Fixpoint split_equals (name : string) (arg : string) : string * option string :=
  match arg with
  | EmptyString => (name, None)
  | String c arg' =>
      if Ascii.eqb c "=" then (name, Some arg')
      else split_equals (name ++ String c EmptyString) arg'
  end.

(** How a cluster of short options ends: every letter consumed, an option
    still waiting for its argument in the next word, or a rejection. *)
Inductive cluster_end : Type :=
| Consumed
| Awaits (o : Option_) (opt : string)
| Failed.

Fixpoint _process_short_opts (letters : string) : list item * cluster_end :=
  match letters with
  | EmptyString => ([], Consumed)
  | String ch letters' =>
      let opt := String "-" (String ch EmptyString) in
      match find_short opt with
      | None => ([Rejected (NoSuchOption opt)], Failed)
      | Some o =>
          if takes_value o then
            match letters' with
            | EmptyString => ([], Awaits o opt)
            | _ => ([Occurrence o opt (Some letters')], Consumed)
            end
          else
            let '(items, e) := _process_short_opts letters' in
            (Occurrence o opt None :: items, e)
      end
  end.

Fixpoint lex (rargs : list string) : list item :=
  match rargs with
  | [] => []
  | arg :: rest =>
      if arg =? "--" then [Terminator rest]
      else if prefix "--" arg then
        let '(name, explicit) := split_equals EmptyString arg in
        match _match_long_opt name with
        | inl e => [Rejected e]
        | inr opt =>
            match find_long opt with
            | None => [Rejected (NoSuchOption opt)]
            | Some o =>
                if takes_value o then
                  match explicit, rest with
                  | Some v, _ => Occurrence o opt (Some v) :: lex rest
                  | None, v :: rest' => Occurrence o opt (Some v) :: lex rest'
                  | None, [] => [Rejected (RequiresArgument opt)]
                  end
                else
                  match explicit with
                  | Some _ => [Rejected (TakesNoValue opt)]
                  | None => Occurrence o opt None :: lex rest
                  end
            end
        end
      else if prefix "-" arg && (1 <? length arg)%nat then
        match _process_short_opts (drop 1 arg), rest with
        | (items, Consumed), _ => (items ++ lex rest)%list
        | (items, Awaits o opt), v :: rest' =>
            (items ++ Occurrence o opt (Some v) :: lex rest')%list
        | (items, Awaits o opt), [] => (items ++ [Rejected (RequiresArgument opt)])%list
        | (items, Failed), _ => items
        end
      else Positional arg :: lex rest
  end.

(** [parser.error(msg)]: usage and message on standard error, exit status 2. *)
Definition parser_error {A : Type} (e : parse_error) : M A :=
  emit (ParserError e) ;;; sys_exit 2.

(** [Option.process]: convert the argument, then [take_action]. *)
Definition process (o : Option_) (opt : string) (value : option string)
    (values : Values) : M Values :=
  value <- match value with
           | None => ret PyNone
           | Some text =>
               match check_value o text with
               | Some v => ret v
               | None => parser_error (InvalidInteger opt text)
               end
           end ;;
  match action o, option_dest o with
  | help, _ => emit PrintHelp ;;; sys_exit 0
  | version, _ => emit PrintVersion ;;; sys_exit 0
  | store, Some d => ret (setattr values d value)
  | store_true, Some d => ret (setattr values d (PyBool true))
  | store_const, Some d => ret (setattr values d (const o))
  | _, None => ret values
  end.

Fixpoint run_items (items : list item) (values : Values) (largs : list string)
    : M (Values * list string) :=
  match items with
  | [] => ret (values, largs)
  | Positional arg :: items' => run_items items' values (largs ++ [arg])%list
  | Terminator rest :: _ => ret (values, (largs ++ rest)%list)
  | Rejected e :: _ => parser_error e
  | Occurrence o opt value :: items' =>
      values <- process o opt value values ;;
      run_items items' values largs
  end.

(** [OptionParser.parse_args(args)]; a default that does not convert is an
    uncaught [OptionValueError], which no option of this parser raises. *)
Definition parse_args (args : list string) : M (Values * list string) :=
  match get_default_values table with
  | Some values => run_items (lex args) values []
  | None => raise OptionValueError
  end.

End Parser.

(** The options every [OptionParser] given [version=] starts with. *)
Definition builtin_options : list Option_ :=
  [ mkOption ["--version"] version None None None PyNone;
    mkOption ["-h"; "--help"] help None None None PyNone ].

(** ** [mirrorselect/main.py]

    The module imports the mirror list locations, the [Output] printer, the
    three selectors, the [Extractor] and the configuration helpers from
    files that are not part of this development, and it reads the process
    environment.  A [World] gathers them: what the environment answers, and
    what each collaborator does when called. *)

(** A mirror's attributes as the [Extractor] hands them over (country,
    region, protocol, ...). *)
Definition HostArgs : Type := list (string * string).

Inductive selector : Type :=
| Interactive
| Deep
| Shallow.

Record World : Type := mkWorld {
  (** [socket.has_ipv6] *)
  has_ipv6 : bool;
  (** [os.getuid()] *)
  getuid : Z;
  (** [portage.const.rootuid], when portage can be imported *)
  portage_rootuid : option Z;
  (** [os.environ.get("PATH")] *)
  environ_PATH : option string;
  (** [os.path.isfile] *)
  isfile : string -> bool;
  (** [os.access(path, os.X_OK)] and [os.access(path, os.F_OK)] *)
  access_X_OK : string -> bool;
  access_F_OK : string -> bool;
  (** [MIRRORS_3_XML] and [MIRRORS_RSYNC_DATA] of [mirrorselect.mirrorparser3] *)
  MIRRORS_3_XML : string;
  MIRRORS_RSYNC_DATA : string;
  (** [Output.print_err] *)
  print_err : string -> M unit;
  (** [Extractor(url, options, output).hosts] *)
  Extractor_hosts : string -> Values -> M (list (string * HostArgs));
  (** [Interactive], [Deep] or [Shallow] [(hosts, options, output).urls] *)
  selector_urls : selector -> list (string * HostArgs) -> Values -> M (list pystr);
  (** [get_make_conf_path] and [get_filesystem_mirrors] of [mirrorselect.configs] *)
  get_make_conf_path : string -> string;
  get_filesystem_mirrors : string -> pyval -> M (list pystr)
}.

(** [EPREFIX]: the placeholder is replaced at install time; left as it is,
    the prefix is empty (main.py, lines 57-61). *)
Definition EPREFIX_placeholder : string := "@GENTOO_PORTAGE_EPREFIX@".

Definition EPREFIX : string :=
  if contains "GENTOO_PORTAGE_EPREFIX" EPREFIX_placeholder then EmptyString
  else EPREFIX_placeholder.

(** [os.path.join(a, b)] *)
Definition os_path_join (a b : string) : string :=
  if prefix "/" b then b
  else if (a =? EmptyString) || endswith "/" a then a ++ b
  else a ++ "/" ++ b.

(** The parser's options, in the order of the [add_option] calls
    (main.py, lines 157-231). *)
Definition flag (short long : string) : Option_ :=
  mkOption [short; long] store_true None None (Some (PyBool false)) PyNone.

Definition mirrorselect_options : list Option_ :=
  (builtin_options ++
  [ flag "-a" "--all_mirrors";
    flag "-i" "--interactive";
    flag "-D" "--deep";
    flag "-F" "--ftp";
    flag "-H" "--http";
    flag "-r" "--rsync";
    flag "-4" "--ipv4";
    flag "-6" "--ipv6";
    mkOption ["-c"; "--country"] store None None (Some PyNone) PyNone;
    mkOption ["-R"; "--region"] store None None (Some PyNone) PyNone;
    flag "-o" "--output";
    mkOption ["-b"; "--blocksize"] store (Some type_int) None None PyNone;
    mkOption ["-t"; "--timeout"] store (Some type_int) None (Some (PyText "10")) PyNone;
    mkOption ["-s"; "--servers"] store (Some type_int) None (Some (PyInt 1)) PyNone;
    mkOption ["-d"; "--debug"] store_const None (Some "verbosity") (Some (PyInt 1)) (PyInt 2);
    mkOption ["-q"; "--quiet"] store_const None (Some "verbosity") None (PyInt 0) ])%list.

Section MirrorSelect.

Variable w : World.

(** [rootuid] (main.py, lines 49-52) *)
Definition rootuid : Z :=
  match portage_rootuid w with
  | Some uid => uid
  | None => 0%Z
  end.

(** [MirrorSelect._have_bin] (main.py, lines 76-91) *)
Fixpoint first_executable (name : string) (dirs : list string) : option string :=
  match dirs with
  | [] => None
  | path_dir :: rest =>
      if path_dir =? EmptyString then first_executable name rest
      else
        let file_path := os_path_join path_dir name in
        if isfile w file_path && access_X_OK w file_path then Some file_path
        else first_executable name rest
  end.

Definition _have_bin (name : string) : option string :=
  first_executable name
    (split ":" (match environ_PATH w with Some p => p | None => EmptyString end)).

(** [MirrorSelect._parse_args] (main.py, lines 134-273) *)
Definition _parse_args (argv : list string) (config_path : string) : M Values :=
  when (List.length argv =? 1)%nat (emit PrintHelp ;;; sys_exit 1) ;;;
  '(options, args) <- parse_args mirrorselect_options (tl argv) ;;
  let opt name := getattr options name in
  when (int_of (opt "http") + int_of (opt "ftp") + int_of (opt "rsync") >? 1)%Z
    (print_err w "Choose at most one of -H, -f and -r") ;;;
  when (truthy (opt "ipv4") && truthy (opt "ipv6"))
    (print_err w "Choose at most one of --ipv4 and --ipv6") ;;;
  options <- (if (truthy (opt "ipv6") && negb (has_ipv6 w))
                 && negb (truthy (opt "interactive"))
              then
                print_err w "The --ipv6 option requires python ipv6 support" ;;;
                ret (setattr options "ipv6" (PyBool false))
              else ret options) ;;
  let opt name := getattr options name in
  when (truthy (opt "rsync")
        && negb (truthy (opt "interactive") || truthy (opt "all_mirrors")))
    (print_err w "rsync servers can only be selected with -i or -a") ;;;
  when (truthy (opt "interactive")
        && (truthy (opt "deep") || truthy (opt "blocksize")
            || (int_of (opt "servers") >? 1)%Z))
    (print_err w "Invalid option combination with -i") ;;;
  when (negb (truthy (opt "deep"))
        && negb (match _have_bin "netselect" with Some _ => true | None => false end))
    (print_err w ("You do not appear to have netselect on your system. "
                  ++ "You must use the -D flag")) ;;;
  when (negb (getuid w =? rootuid)%Z && negb (truthy (opt "output")))
    (print_err w ("Must be root to write to " ++ config_path ++ "!" ++ nl)) ;;;
  when (negb (match args with [] => true | _ => false end))
    (print_err w "Unexpected arguments passed.") ;;;
  ret options.

(** [self.output.write(message, level)] *)
Definition output_write (message : string) (level : option Z) : M unit :=
  emit (OutputWrite message level).

(** [MirrorSelect.get_available_hosts] (main.py, lines 276-289) *)
Definition get_available_hosts (options : Values) : M (list (string * HostArgs)) :=
  if truthy (getattr options "rsync") then
    output_write ("using url: " ++ MIRRORS_RSYNC_DATA w) (Some 2%Z) ;;;
    Extractor_hosts w (MIRRORS_RSYNC_DATA w) options
  else
    output_write ("using url: " ++ MIRRORS_3_XML w) (Some 2%Z) ;;;
    Extractor_hosts w (MIRRORS_3_XML w) options.

(** [MirrorSelect.select_urls] (main.py, lines 292-309) *)
Definition select_urls (hosts : list (string * HostArgs)) (options : Values)
    : M (list pystr) :=
  if truthy (getattr options "interactive") then selector_urls w Interactive hosts options
  else if truthy (getattr options "deep") then selector_urls w Deep hosts options
  else selector_urls w Shallow hosts options.

(** [MirrorSelect.get_conf_path] (main.py, lines 312-327) *)
Definition get_conf_path (rsync : pyval) : M string :=
  if truthy rsync then
    let config_path := EPREFIX ++ "/etc/portage/repos.conf/gentoo.conf" in
    if negb (access_F_OK w config_path) then
      output_write ("Failed access to gentoo.conf: "
                    ++ py_str (PyBool (access_F_OK w config_path)) ++ nl) (Some 2%Z) ;;;
      ret (get_make_conf_path w EPREFIX)
    else ret config_path
  else ret (get_make_conf_path w EPREFIX).

(** [MirrorSelect.main] (main.py, lines 330-364) *)
Definition no_results_message : string :=
  "No search results found. Check your filter settings and re-run mirrorselect" ++ nl.

(** Lines 335-350: the configuration path, the options, the mirrors already
    in the configuration and the hosts to choose from. *)
Definition main_setup (argv : list string)
    : M (string * Values * list pystr * list (string * HostArgs)) :=
  config_path <- get_conf_path (PyBool false) ;;
  options <- _parse_args argv config_path ;;
  emit (SetVerbosity (int_of (getattr options "verbosity"))) ;;;
  output_write ("main(); config_path = " ++ config_path ++ nl) (Some 2%Z) ;;;
  config_path <-
    (if truthy (getattr options "rsync") then
       config_path <- get_conf_path (getattr options "rsync") ;;
       output_write ("main(); reset config_path = " ++ config_path ++ nl) (Some 2%Z) ;;;
       ret config_path
     else
       output_write ("main(); rsync = " ++ py_str (getattr options "rsync")) (Some 2%Z) ;;;
       ret config_path) ;;
  fsmirrors <- get_filesystem_mirrors w config_path (getattr options "rsync") ;;
  hosts <- get_available_hosts options ;;
  ret (config_path, options, fsmirrors, hosts).

(** Lines 352-357: all mirrors in sorted order (the first of them alone for
    rsync), or the selector's choice. *)
Definition main_urls (hosts : list (string * HostArgs)) (options : Values)
    : M (list pystr) :=
  if truthy (getattr options "all_mirrors") then
    let urls := sorted (map fst hosts) in
    if truthy (getattr options "rsync") then
      first <- index0 urls ;; ret [Str first]
    else ret (map Str urls)
  else select_urls hosts options.

(** Lines 359-364: write the configuration, or say that nothing was found. *)
Definition main_finish (config_path : string) (options : Values)
    (fsmirrors urls : list pystr) : M unit :=
  if negb (List.length urls =? 0)%nat then
    change_config (fsmirrors ++ urls)%list (truthy (getattr options "output"))
      config_path (truthy (getattr options "rsync"))
  else
    output_write no_results_message None.

Definition main (argv : list string) : M unit :=
  '(config_path, options, fsmirrors, hosts) <- main_setup argv ;;
  urls <- main_urls hosts options ;;
  main_finish config_path options fsmirrors urls.

End MirrorSelect.

(** ** The selection engine ([mirrorselect/selectors.py])

    [main.py] only constructs the selectors; their code is not part of this
    development.  The engine is therefore modelled from the specification
    (sections 3 to 6): its data model, the Ranker/Selector and the
    ShallowProbe strategy. *)

(** Modelled from the spec: the [MirrorRecord] value of section 3, which the
    missing [Extractor] would build. *)
Record MirrorRecord : Type := mkMirror {
  url : string;
  country : option string;
  region : option string
}.

(** Modelled from the spec: the [status] of a [ProbeResult] (sections 3 and
    7), which the missing selectors would report. *)
Inductive Status : Type :=
| Success
| Timeout
| Unreachable
| Error (reason : string).

(** Modelled from the spec: the [ProbeResult] of section 3.  A failed probe
    has no metric: its field is left at zero and never read. *)
Record ProbeResult : Type := mkResult {
  record : MirrorRecord;
  metric : Q;
  status : Status
}.

(** Modelled from the spec: the [RankedList] of section 3. *)
Definition RankedList : Type := list MirrorRecord.

(** Modelled from the spec: the direction a strategy gives its metric
    (section 4.3): ascending for latency, descending for throughput. *)
Inductive Direction : Type :=
| Ascending
| Descending.

(** Modelled from the spec: the configuration of section 6. *)
Record Configuration : Type := mkConfiguration {
  strategy : selector;
  protocolFilter : option string;
  addressFamily : option string;
  countryFilter : option string;
  regionFilter : option string;
  blockSize : option nat;
  timeoutSeconds : Q;
  requestedCount : nat
}.

(** Modelled from the spec: the filter to results of status [Success]
    (section 4.3), which the missing selectors would apply. *)
Definition is_success (r : ProbeResult) : bool :=
  match status r with
  | Success => true
  | _ => false
  end.

(** Modelled from the spec: the order of the Ranker (section 4.3), by metric
    in the strategy's direction, exact ties by ascending URL. *)
Definition ranks_before (d : Direction) (a b : ProbeResult) : bool :=
  match d, (metric a ?= metric b)%Q with
  | _, Eq => (url (record a) <=? url (record b))%string
  | Ascending, Lt => true
  | Ascending, Gt => false
  | Descending, Lt => false
  | Descending, Gt => true
  end.

(** Modelled from the spec: the same order in the words of section 4.3, as
    a relation: a strictly better metric, or an exact tie and a URL that is
    not greater. *)
Definition precedes (d : Direction) (a b : ProbeResult) : Prop :=
  match d with
  | Ascending => (metric a < metric b)%Q
  | Descending => (metric b < metric a)%Q
  end
  \/ ((metric a == metric b)%Q /\ (url (record a) <=? url (record b))%string = true).

(** Modelled from the spec: the Ranker's sort (section 4.3), a stable sort
    by that order: results that compare equal keep their collection order. *)
Definition rank (d : Direction) (l : list ProbeResult) : list ProbeResult :=
  sort_by (ranks_before d) l.

(** Modelled from the spec: the successful results in ranked order, the
    first two steps of the missing [select] (section 4.3). *)
Definition ranked_results (results : list ProbeResult) (d : Direction)
    : list ProbeResult :=
  rank d (filter is_success results).

(** Modelled from the spec: the last step of the missing [select]
    (section 4.3), [count] entries, or all of them when no count is given. *)
Definition take {A : Type} (count : option nat) (l : list A) : list A :=
  match count with
  | Some n => firstn n l
  | None => l
  end.

(** Modelled from the spec: [select(results, strategyDirection, count)] of
    section 4.3, which the missing selectors would implement. *)
Definition select (results : list ProbeResult) (strategyDirection : Direction)
    (count : option nat) : RankedList :=
  take count (map record (ranked_results results strategyDirection)).

(** *** ShallowProbe *)

(** Modelled from the spec: the external ranking oracle of section 6, given
    URLs and a desired count; it returns an ordered subset or fails. *)
Definition Oracle : Type := list string -> nat -> option (list string).

(** Modelled from the spec: the partition of the missing ShallowProbe
    (section 4.1) into sequential sub-batches of at most [size] elements;
    [block] holds the elements of the sub-batch being filled.  A size of
    zero bounds nothing. *)
Fixpoint blocks {A : Type} (size : nat) (block : list A) (l : list A)
    : list (list A) :=
  match l with
  | [] => match block with [] => [] | _ => [block] end
  | x :: l' =>
      if (S (List.length block) =? size)%nat
      then (block ++ [x])%list :: blocks size [] l'
      else blocks size (block ++ [x])%list l'
  end.

(** Modelled from the spec: what a run of the missing ShallowProbe did
    (sections 4.1 and 7): the oracle calls issued, the URLs ranked so far
    and the sub-batches whose call failed. *)
Record ShallowRun : Type := mkShallowRun {
  calls : list (list string);
  ranked : list string;
  failed : list (list string)
}.

(** Modelled from the spec: one oracle call of the missing ShallowProbe
    (section 4.1); a failed call is reported and adds no URL. *)
Definition rank_block (oracle : Oracle) (count : nat) (run : ShallowRun)
    (block : list string) : ShallowRun :=
  match oracle block count with
  | Some best => mkShallowRun (calls run ++ [block])%list (ranked run ++ best)%list (failed run)
  | None => mkShallowRun (calls run ++ [block])%list (ranked run) (failed run ++ [block])%list
  end.

(** Modelled from the spec: the ShallowProbe strategy of section 4.1: the
    batch, partitioned by the block size when one is configured, goes to the
    oracle one sub-batch at a time, and the answers are concatenated. *)
Definition shallow_probe (oracle : Oracle) (config : Configuration)
    (candidates : list MirrorRecord) : ShallowRun :=
  let urls := map url candidates in
  let batches :=
    match blockSize config with
    | Some size => blocks size [] urls
    | None => [urls]
    end in
  fold_left (rank_block oracle (requestedCount config)) batches (mkShallowRun [] [] []).

(** Modelled from the spec: what the oracle of the missing ShallowProbe
    answered for one sub-batch (section 6), nothing when it failed. *)
Definition oracle_answer (oracle : Oracle) (count : nat) (block : list string)
    : list string :=
  match oracle block count with
  | Some best => best
  | None => []
  end.

(** ** Notions the properties are stated with *)

(** The text a host stands for. *)
Definition host_text (h : pystr) : string :=
  match h with
  | Str s => s
  | Bytes b => b
  end.

Definition is_str (h : pystr) : bool := negb (has_decode h).

Definition is_utf8_bytes (h : pystr) : bool :=
  match h with
  | Str _ => false
  | Bytes b => utf8_valid b
  end.

(** A list of host URLs: all of them text, or all of them UTF-8 encoded
    bytes. *)
Definition host_list (hosts : list pystr) : bool :=
  forallb is_str hosts || forallb is_utf8_bytes hosts.

(** The line [change_config] prints for [out=True]. *)
Definition mirror_assignment (var joined : string) : string :=
  if var =? "sync-uri" then var ++ " = " ++ joined
  else var ++ "=" ++ dquote ++ joined ++ dquote.

(** A world to run the tool in: root on a machine with netselect, an
    [Extractor] that finds [hosts], selectors that choose [chosen], no
    mirrors in the configuration yet, and a [print_err] that prints and
    exits with status 1. *)
Definition sample_world (hosts : list (string * HostArgs)) (chosen : list pystr)
    : World :=
  mkWorld true 0%Z None (Some "/usr/local/bin:/usr/bin")
    (String.eqb "/usr/bin/netselect") (fun _ => true) (fun _ => false)
    "distfiles.xml" "rsync.xml"
    (fun message => emit (OutputWrite message None) ;;; sys_exit 1)
    (fun _ _ => ret hosts)
    (fun _ _ _ => ret chosen)
    (fun _ => "/etc/portage/make.conf")
    (fun _ _ => ret []).

(** ** [setup.py]: the [set_version] command

    The command rewrites the version in [mirrorselect/version.py] and in the
    manual page.  A file is its content, a text in UTF-8 like every text
    here; a file that is not UTF-8 text, or that may not be written, is not
    modelled.  The two regular expressions are modelled by what they match:
    an anchored lookbehind, a quote, a run of characters that are not
    quotes, and a quote.  What [re] makes of a replacement that holds a
    backslash is the work of that library and is taken as a parameter. *)

(** [__version__] (setup.py, line 16): [VERSION] from the environment,
    else [PVR], else 9999. *)
Definition __version__ (VERSION PVR : option string) : string :=
  match VERSION with
  | Some v => v
  | None => match PVR with Some v => v | None => "9999" end
  end.

(** One position of a lookbehind: a literal character, or [.], any
    character but a line feed. *)
Inductive atom : Type :=
| Lit (c : ascii)
| AnyChar.

(** The bytes that follow the first byte [c] of a character in UTF-8. *)
Definition continuation_bytes (c : ascii) : nat :=
  let n := nat_of_ascii c in
  if (n <? 192)%nat then 0%nat
  else if (n <? 224)%nat then 1%nat
  else if (n <? 240)%nat then 2%nat
  else 3%nat.

(** The first [n] bytes of [s], and the rest. *)
Fixpoint split_at (n : nat) (s : string) : string * string :=
  match n, s with
  | S n', String c s' => let (a, b) := split_at n' s' in (String c a, b)
  | _, _ => (EmptyString, s)
  end.

(** The character an atom matches at the start of [line], and the rest of
    the line. *)
Definition match_atom (a : atom) (line : string) : option (string * string) :=
  match line with
  | EmptyString => None
  | String c line' =>
      match a with
      | Lit d => if Ascii.eqb c d then Some (String c EmptyString, line') else None
      | AnyChar =>
          if Ascii.eqb c (ascii_of_nat 10) then None
          else let (more, rest) := split_at (continuation_bytes c) line' in
               Some (String c more, rest)
      end
  end.

(** [(?<=^...)]: the line starts with text the atoms match; the text and
    the rest of the line. *)
Fixpoint lookbehind (p : list atom) (line : string) : option (string * string) :=
  match p with
  | [] => Some (EmptyString, line)
  | a :: p' =>
      match match_atom a line with
      | Some (char, line') =>
          match lookbehind p' line' with
          | Some (pre, rest) => Some (char ++ pre, rest)
          | None => None
          end
      | None => None
      end
  end.

(** [quote] (setup.py, line 64): one single or double quote character. *)
Definition is_quote (c : ascii) : bool :=
  Ascii.eqb c "'" || Ascii.eqb c (ascii_of_nat 34).

(** A run of characters that are not quotes, then a quote: the run with
    its quote, and what follows. *)
Fixpoint up_to_quote (s : string) : option (string * string) :=
  match s with
  | EmptyString => None
  | String c s' =>
      if is_quote c then Some (String c EmptyString, s')
      else match up_to_quote s' with
           | Some (run, tail) => Some (String c run, tail)
           | None => None
           end
  end.

(** [re.sub(pattern, repl, line, 1)] (setup.py, line 58) for a pattern made
    of a lookbehind [p] and a quoted text; [expand] gives the replacement
    for the text matched. *)
Definition re_sub (p : list atom) (expand : string -> string) (line : string)
    : string :=
  match lookbehind p line with
  | Some (pre, String q rest) =>
      if is_quote q then
        match up_to_quote rest with
        | Some (run, tail) => pre ++ expand (String q run) ++ tail
        | None => line
        end
      else line
  | _ => line
  end.

(** The replacement [re.sub] makes of [repl]: [repl] itself when it holds
    no backslash; else what the template parser of [re] makes of it, an
    error or a text that depends on the text matched. *)
Definition compile_repl (parse_template : string -> option (string -> string))
    (repl : string) : option (string -> string) :=
  if contains (String (ascii_of_nat 92) EmptyString) repl then parse_template repl
  else Some (fun _ => repl).

(** [python_re] and [man_re] (setup.py, lines 65 and 67) *)
Definition literal (s : string) : list atom := map Lit (list_ascii_of_string s).

Definition python_re : list atom := literal "version = ".

Definition man_re : list atom :=
  AnyChar ::
  literal ("TH " ++ dquote ++ "mirrorselect" ++ dquote ++ " " ++ dquote ++ "8" ++ dquote ++ " ").

(** The lines of a text file opened for reading, as the loop of line 57
    gets them: each with its line end, which reads as a line feed whether
    the file has a line feed, a carriage return or both; [after_cr] says
    that the character before was a carriage return, whose line feed is
    passed over. *)
Fixpoint lines_from (after_cr : bool) (content : string) : list string :=
  match content with
  | EmptyString => []
  | String c rest =>
      if Ascii.eqb c (ascii_of_nat 10) then
        if after_cr then lines_from false rest else nl :: lines_from false rest
      else if Ascii.eqb c (ascii_of_nat 13) then nl :: lines_from true rest
      else match lines_from false rest with
           | [] => [String c EmptyString]
           | line :: lines => String c line :: lines
           end
  end.

Definition text_lines (content : string) : list string := lines_from false content.

(** [s.writelines(updated_file)] (setup.py, line 63): the lines one after
    the other, a line feed being written as it is. *)
Fixpoint writelines (lines : list string) : string :=
  match lines with
  | [] => EmptyString
  | line :: rest => line ++ writelines rest
  end.

Inductive setup_event : Type :=
| Printed (line : string)
| LoggedInfo (message : string).

(** How a run ends early: [io.open] finds no file, or the template parser
    of [re] refuses the replacement. *)
Inductive setup_error : Type :=
| CannotOpen (file : string)
| BadTemplate.

(** The files, by path, and what the command printed and logged. *)
Record SetupState : Type := mkSetupState {
  files : list (string * string);
  journal : list setup_event
}.

Fixpoint read_file (fs : list (string * string)) (f : string) : option string :=
  match fs with
  | [] => None
  | (g, content) :: rest => if g =? f then Some content else read_file rest f
  end.

Fixpoint write_file (fs : list (string * string)) (f : string) (content : string)
    : list (string * string) :=
  match fs with
  | [] => [(f, content)]
  | (g, old) :: rest =>
      if g =? f then (g, content) :: rest else (g, old) :: write_file rest f content
  end.

(** The replacement for the lines of one file: [re.sub] reads its
    replacement when it is called, so a file without lines asks for none. *)
Definition replacement (parse_template : string -> option (string -> string))
    (ver : string) (lines : list string) : option (string -> string) :=
  match lines with
  | [] => Some (fun matched => matched)
  | _ => compile_repl parse_template (dquote ++ ver ++ dquote)
  end.

(** The [logging.info] calls for one file: one per line that changes. *)
Definition changes (p : list atom) (expand : string -> string) (f : string)
    (lines : list string) : list setup_event :=
  flat_map (fun line =>
              let newline := re_sub p expand line in
              if newline =? line then []
              else [LoggedInfo (f ++ ": " ++ newline)]) lines.

(** [sub(files, pattern)] (setup.py, lines 53-63) *)
Fixpoint sub (parse_template : string -> option (string -> string)) (ver : string)
    (file_names : list string) (p : list atom) (st : SetupState)
    : SetupState * option setup_error :=
  match file_names with
  | [] => (st, None)
  | f :: rest =>
      match read_file (files st) f with
      | None => (st, Some (CannotOpen f))
      | Some content =>
          let lines := text_lines content in
          match replacement parse_template ver lines with
          | None => (st, Some BadTemplate)
          | Some expand =>
              sub parse_template ver rest p
                (mkSetupState
                   (write_file (files st) f (writelines (map (re_sub p expand) lines)))
                   (journal st ++ changes p expand f lines)%list)
          end
      end
  end.

(** [python_scripts] and [manpage] (setup.py, lines 30-36), [cwd] being the
    working directory. *)
Definition python_scripts (cwd : string) : list string :=
  [os_path_join cwd "mirrorselect/version.py"].

Definition manpage (cwd : string) : list string :=
  [os_path_join cwd "mirrorselect.8"].

(** [ver] of [set_version.run] (setup.py, line 51) *)
Definition set_version_ver (VERSION PVR : option string) : string :=
  if __version__ VERSION PVR =? "9999" then "git" else __version__ VERSION PVR.

(** [set_version.run] (setup.py, lines 50-68) *)
Definition set_version_run (parse_template : string -> option (string -> string))
    (cwd : string) (VERSION PVR : option string) (st : SetupState)
    : SetupState * option setup_error :=
  let ver := set_version_ver VERSION PVR in
  let st := mkSetupState (files st)
              (journal st ++ [Printed ("Setting version to " ++ ver)])%list in
  match sub parse_template ver (python_scripts cwd) python_re st with
  | (st, None) => sub parse_template ver (manpage cwd) man_re st
  | failed => failed
  end.

(** No character of [s] is a quote. *)
Fixpoint quote_free (s : string) : bool :=
  match s with
  | EmptyString => true
  | String c s' => negb (is_quote c) && quote_free s'
  end.

(** The version holds a backslash, which [re] reads as an escape, or a
    line end, which splits the line it is written into. *)
Definition not_plain (ver : string) : bool :=
  contains (String (ascii_of_nat 92) EmptyString) ver ||
  contains nl ver ||
  contains (String (ascii_of_nat 13) EmptyString) ver.

(** ** Notions the further properties are stated with *)

(** The calls that rewrite a configuration file. *)
Definition is_config_write (e : event) : bool :=
  match e with
  | WriteMakeConf _ _ _ => true
  | WriteReposConf _ _ _ => true
  | _ => false
  end.

(** The directories [_have_bin] walks: the fields of [PATH], none when the
    variable is not set. *)
Definition path_dirs (w : World) : list string :=
  split ":" (match environ_PATH w with Some p => p | None => EmptyString end).

(** [name] in [path_dir] is a file the user may execute. *)
Definition executable_in (w : World) (name path_dir : string) : bool :=
  isfile w (os_path_join path_dir name) && access_X_OK w (os_path_join path_dir name).

(** The world [w] with other selectors. *)
Definition with_selectors (w : World)
    (selectors : selector -> list (string * HostArgs) -> Values -> M (list pystr))
    : World :=
  mkWorld (has_ipv6 w) (getuid w) (portage_rootuid w) (environ_PATH w) (isfile w)
    (access_X_OK w) (access_F_OK w) (MIRRORS_3_XML w) (MIRRORS_RSYNC_DATA w)
    (print_err w) (Extractor_hosts w) selectors (get_make_conf_path w)
    (get_filesystem_mirrors w).

(** [print_err] ends the run, as a printer of fatal errors does. *)
Definition print_err_aborts (w : World) : Prop :=
  forall message tr, exists tr' e, print_err w message tr = (tr', inl e).

(** The shapes of the values the parser's options hold. *)
Definition is_bool (v : pyval) : bool :=
  match v with PyBool _ => true | _ => false end.

Definition is_int (v : pyval) : bool :=
  match v with PyInt _ => true | _ => false end.

Definition is_none_or_int (v : pyval) : bool :=
  match v with PyNone => true | PyInt _ => true | _ => false end.

Definition is_none_or_text (v : pyval) : bool :=
  match v with PyNone => true | PyText _ => true | _ => false end.

Definition is_verbosity (v : pyval) : bool :=
  match v with PyInt z => ((0 <=? z) && (z <=? 2))%Z | _ => false end.

(** Every attribute holds a value of the type its option stores. *)
Definition options_typed (options : Values) : bool :=
  forallb (fun name => is_bool (getattr options name))
    ["all_mirrors"; "interactive"; "deep"; "ftp"; "http"; "rsync"; "ipv4"; "ipv6";
     "output"]
  && forallb (fun name => is_none_or_text (getattr options name)) ["country"; "region"]
  && is_none_or_int (getattr options "blocksize")
  && is_int (getattr options "timeout")
  && is_int (getattr options "servers")
  && is_verbosity (getattr options "verbosity").

(** The sanity checks of [_parse_args] (main.py, lines 239-270), as one
    condition on the options and the arguments left over. *)
Definition options_sane (w : World) (options : Values) (args : list string) : bool :=
  let opt name := getattr options name in
  (int_of (opt "http") + int_of (opt "ftp") + int_of (opt "rsync") <=? 1)%Z
  && negb (truthy (opt "ipv4") && truthy (opt "ipv6"))
  && negb ((truthy (opt "ipv6") && negb (has_ipv6 w)) && negb (truthy (opt "interactive")))
  && negb (truthy (opt "rsync")
           && negb (truthy (opt "interactive") || truthy (opt "all_mirrors")))
  && negb (truthy (opt "interactive")
           && (truthy (opt "deep") || truthy (opt "blocksize")
               || (int_of (opt "servers") >? 1)%Z))
  && (truthy (opt "deep")
      || match _have_bin w "netselect" with Some _ => true | None => false end)
  && ((getuid w =? rootuid w)%Z || truthy (opt "output"))
  && match args with [] => true | _ => false end.

(** The path of the repository configuration (main.py, line 321). *)
Definition gentoo_conf : string := EPREFIX ++ "/etc/portage/repos.conf/gentoo.conf".

(** An item of the command line that names an option of the table, with an
    argument when the option takes one. *)
Definition item_of_table (table : list Option_) (it : item) : Prop :=
  match it with
  | Occurrence o _ value => In o table /\ (takes_value o = true -> value <> None)
  | _ => True
  end.

(** A source tree to run [set_version] in: a version file and a manual
    page under [/src], both naming version 2.2.2. *)
Definition sample_files : list (string * string) :=
  [("/src/mirrorselect/version.py",
    "#!/usr/bin/python" ++ nl ++ "version = '2.2.2'  # set by set_version" ++ nl);
   ("/src/mirrorselect.8",
    ".TH " ++ dquote ++ "mirrorselect" ++ dquote ++ " " ++ dquote ++ "8" ++ dquote
    ++ " " ++ dquote ++ "2.2.2" ++ dquote ++ nl ++ ".SH NAME" ++ nl);
   ("/src/README", "version = '2.2.2'" ++ nl)].

(** A template parser that refuses every replacement with a backslash. *)
Definition no_escapes : string -> option (string -> string) := fun _ => None.

(** A text without line end. *)
Fixpoint no_line_end (s : string) : bool :=
  match s with
  | EmptyString => true
  | String c s' =>
      negb (Ascii.eqb c (ascii_of_nat 10)) && negb (Ascii.eqb c (ascii_of_nat 13))
      && no_line_end s'
  end.

(** A line as a text file gives it: text without line end, then a line
    feed, or nothing after the last text of the file. *)
Fixpoint is_line (s : string) : bool :=
  match s with
  | EmptyString => false
  | String c s' =>
      if Ascii.eqb c (ascii_of_nat 10) then s' =? EmptyString
      else negb (Ascii.eqb c (ascii_of_nat 13))
           && match s' with EmptyString => true | _ => is_line s' end
  end.

(** The lines of one file: every one a line, and all but the last with
    their line feed. *)
Fixpoint file_lines (lines : list string) : bool :=
  match lines with
  | [] => true
  | line :: rest =>
      is_line line
      && match rest with [] => true | _ => endswith (ascii_of_nat 10) line end
      && file_lines rest
  end.

(* ================================================================== *)
(** * Part II: properties *)
(* ================================================================== *)

(** ** The insertion sort *)

Section InsertionSortFacts.

Context {A : Type} (le : A -> A -> bool).

Let in_order (a b : A) : Prop := le a b = true.

Lemma insert_by_perm (x : A) (l : list A) :
  Permutation (insert_by le x l) (x :: l).
Proof.
  induction l as [|y l IH]; simpl.
  - apply Permutation_refl.
  - destruct (le x y).
    + apply Permutation_refl.
    + apply perm_trans with (y :: x :: l).
      * apply perm_skip, IH.
      * apply perm_swap.
Qed.

Lemma sort_by_perm (l : list A) : Permutation (sort_by le l) l.
Proof.
  induction l as [|x l IH]; simpl.
  - apply perm_nil.
  - apply perm_trans with (x :: sort_by le l).
    + apply insert_by_perm.
    + apply perm_skip, IH.
Qed.

(** A list already in order is left as it is. *)
Lemma sort_by_fixed (l : list A) :
  StronglySorted in_order l -> sort_by le l = l.
Proof.
  induction 1 as [|x l Hl IH Hx]; simpl.
  - reflexivity.
  - rewrite IH. destruct l as [|y l']; simpl.
    + reflexivity.
    + inversion Hx as [|? ? Hxy _]; subst. unfold in_order in Hxy.
      now rewrite Hxy.
Qed.

Hypothesis le_total : forall a b, le a b = true \/ le b a = true.
Hypothesis le_trans : forall a b c, le a b = true -> le b c = true -> le a c = true.

Lemma insert_by_sorted (x : A) (l : list A) :
  StronglySorted in_order l -> StronglySorted in_order (insert_by le x l).
Proof.
  induction 1 as [|y l Hl IH Hy]; simpl.
  - constructor; constructor.
  - destruct (le x y) eqn:Hxy.
    + constructor.
      * now constructor.
      * constructor; [exact Hxy|].
        eapply Forall_impl; [|exact Hy].
        intros z Hyz. now apply le_trans with y.
    + constructor; [exact IH|].
      assert (Hyx : le y x = true) by (destruct (le_total x y); congruence).
      apply (Permutation_Forall (Permutation_sym (insert_by_perm x l))).
      now constructor.
Qed.

Lemma sort_by_sorted (l : list A) : StronglySorted in_order (sort_by le l).
Proof.
  induction l as [|x l IH]; simpl.
  - constructor.
  - now apply insert_by_sorted.
Qed.

(** Sorting what is sorted changes nothing. *)
Lemma sort_by_idempotent (l : list A) :
  sort_by le (sort_by le l) = sort_by le l.
Proof. apply sort_by_fixed, sort_by_sorted. Qed.

(** Two elements of a sorted list are in order, whatever stands between. *)
Lemma sorted_apart (l1 l2 l3 : list A) (a b : A) :
  StronglySorted in_order (l1 ++ a :: l2 ++ b :: l3) -> le a b = true.
Proof.
  induction l1 as [|x l1 IH]; simpl; intros H.
  - apply StronglySorted_inv in H. destruct H as [_ H].
    rewrite Forall_forall in H. apply H.
    apply in_or_app. right. now left.
  - apply StronglySorted_inv in H. now apply IH.
Qed.

(** Where the order is antisymmetric on the elements of a list, the list
    has one sorted arrangement. *)
Lemma sorted_unique (l l' : list A) :
  (forall a b, In a l -> In b l -> le a b = true -> le b a = true -> a = b) ->
  StronglySorted in_order l -> StronglySorted in_order l' ->
  Permutation l l' -> l = l'.
Proof.
  intros antisym Hl. revert l' antisym.
  induction Hl as [|x l Hl IH Hx]; intros l' antisym Hl' Hp.
  - apply Permutation_nil in Hp. now subst.
  - destruct Hl' as [|y l' Hl' Hy].
    + apply Permutation_sym, Permutation_nil in Hp. discriminate.
    + assert (Hin1 : In x (y :: l')) by (eapply Permutation_in; [exact Hp|now left]).
      assert (Hin2 : In y (x :: l))
        by (eapply Permutation_in; [apply Permutation_sym; exact Hp|now left]).
      assert (x = y) as <-.
      { destruct Hin1 as [->|Hin1]; [reflexivity|].
        destruct Hin2 as [->|Hin2]; [reflexivity|].
        rewrite Forall_forall in Hx, Hy.
        apply antisym; [now left|now right|now apply Hx|now apply Hy]. }
      f_equal. apply IH; [|exact Hl'|now apply Permutation_cons_inv in Hp].
      intros a b Ha Hb. apply antisym; now right.
Qed.

End InsertionSortFacts.

(** ** The order of strings *)

Lemma ascii_compare_refl (a : ascii) : Ascii.compare a a = Eq.
Proof. unfold Ascii.compare. apply N.compare_refl. Qed.

Lemma string_compare_refl (s : string) : String.compare s s = Eq.
Proof.
  induction s as [|a s IH]; simpl.
  - reflexivity.
  - now rewrite ascii_compare_refl.
Qed.

Lemma ascii_compare_lt_trans (a b c : ascii) :
  Ascii.compare a b = Lt -> Ascii.compare b c = Lt -> Ascii.compare a c = Lt.
Proof.
  unfold Ascii.compare. rewrite !N.compare_lt_iff. lia.
Qed.

Lemma string_compare_lt_trans (s1 s2 s3 : string) :
  String.compare s1 s2 = Lt -> String.compare s2 s3 = Lt -> String.compare s1 s3 = Lt.
Proof.
  revert s2 s3.
  induction s1 as [|a s1 IH]; intros [|b s2] [|c s3]; simpl; try congruence.
  destruct (Ascii.compare a b) eqn:Hab; try discriminate;
    destruct (Ascii.compare b c) eqn:Hbc; try discriminate; intros H12 H23.
  - apply Ascii.compare_eq_iff in Hab, Hbc. subst.
    rewrite ascii_compare_refl. now apply IH with s2.
  - apply Ascii.compare_eq_iff in Hab. subst. now rewrite Hbc.
  - apply Ascii.compare_eq_iff in Hbc. subst. now rewrite Hab.
  - now rewrite (ascii_compare_lt_trans a b c).
Qed.

Lemma string_leb_refl (s : string) : (s <=? s)%string = true.
Proof. unfold String.leb. now rewrite string_compare_refl. Qed.

Lemma string_leb_trans (s1 s2 s3 : string) :
  (s1 <=? s2)%string = true -> (s2 <=? s3)%string = true -> (s1 <=? s3)%string = true.
Proof.
  unfold String.leb.
  destruct (String.compare s1 s2) eqn:H12; try discriminate;
    destruct (String.compare s2 s3) eqn:H23; try discriminate; intros _ _.
  - apply String.compare_eq_iff in H12, H23. subst. now rewrite string_compare_refl.
  - apply String.compare_eq_iff in H12. subst. now rewrite H23.
  - apply String.compare_eq_iff in H23. subst. now rewrite H12.
  - now rewrite (string_compare_lt_trans s1 s2 s3).
Qed.

(** [sorted] returns its argument rearranged in ascending order. *)
Lemma sorted_perm (l : list string) : Permutation (sorted l) l.
Proof. apply sort_by_perm. Qed.

Lemma sorted_ascending (l : list string) :
  StronglySorted (fun a b => (a <=? b)%string = true) (sorted l).
Proof.
  apply sort_by_sorted.
  - apply String.leb_total.
  - apply string_leb_trans.
Qed.

(** ** Running computations *)

Lemma bind_returns {A B : Type} (c : M A) (k : A -> M B) tr tr' a :
  c tr = (tr', inr a) -> bind c k tr = k a tr'.
Proof. intros H. unfold bind. now rewrite H. Qed.

Lemma bind_returned {A B : Type} (c : M A) (k : A -> M B) tr tr' b :
  bind c k tr = (tr', inr b) ->
  exists a tr1, c tr = (tr1, inr a) /\ k a tr1 = (tr', inr b).
Proof.
  unfold bind. destruct (c tr) as [tr1 [e|a]]; intros H.
  - discriminate.
  - now exists a, tr1.
Qed.

Lemma mapM_as_text (hosts : list pystr) tr :
  forallb is_str hosts = true ->
  mapM as_text hosts tr = (tr, inr (map host_text hosts)).
Proof.
  induction hosts as [|h hosts IH]; simpl; intros H.
  - reflexivity.
  - apply andb_prop in H. destruct H as [Hh Hrest].
    destruct h as [s|b]; [|discriminate].
    unfold bind at 1. simpl. unfold bind at 1. now rewrite (IH Hrest).
Qed.

Lemma mapM_decode (hosts : list pystr) tr :
  forallb is_utf8_bytes hosts = true ->
  mapM decode hosts tr = (tr, inr (map (fun h => Str (host_text h)) hosts)).
Proof.
  induction hosts as [|h hosts IH]; simpl; intros H.
  - reflexivity.
  - apply andb_prop in H. destruct H as [Hh Hrest].
    destruct h as [s|b]; [discriminate|]. simpl in Hh.
    unfold bind at 1. simpl. rewrite Hh. unfold ret at 1.
    unfold bind at 1. now rewrite (IH Hrest).
Qed.

Lemma decoded_are_text (hosts : list pystr) :
  forallb is_str (map (fun h => Str (host_text h)) hosts) = true.
Proof. induction hosts as [|h hosts IH]; simpl; auto. Qed.

Lemma decoded_text (hosts : list pystr) :
  map host_text (map (fun h => Str (host_text h)) hosts) = map host_text hosts.
Proof. rewrite map_map. reflexivity. Qed.

(** ** [change_config] with [out=True] *)

(** C9, as amended.  For every non-empty list of hosts that are all text,
    or all byte strings that decode as UTF-8, [change_config] called with
    [out=True] prints an empty line and the assignment of the mirrors to
    the variable on standard output, then raises [SystemExit] with code 0:
    it does not return, and the run records no write to a configuration
    file. *)
Theorem change_config_out_prints_and_exits
    (hosts : list pystr) (config_path : string) (sync : bool) (tr : list event) :
  hosts <> [] ->
  host_list hosts = true ->
  change_config hosts true config_path sync tr =
    ((tr ++ [Stdout EmptyString;
             Stdout (mirror_assignment (config_var config_path sync)
                       (join " " (map host_text hosts)))])%list,
     inl (SystemExit 0)).
Proof.
  intros Hne Hwf. unfold change_config.
  destruct hosts as [|h hosts]; [congruence|].
  unfold index0. rewrite (bind_returns _ _ tr tr h) by reflexivity.
  assert (Hout : forall texts tr0,
    (let joined := join " " texts in
     let mirror_string :=
       if (config_var config_path sync =? "sync-uri") && true
       then config_var config_path sync ++ " = " ++ joined
       else config_var config_path sync ++ "=" ++ dquote ++ joined ++ dquote in
     write_to_output mirror_string) tr0 =
    ((tr0 ++ [Stdout EmptyString;
              Stdout (mirror_assignment (config_var config_path sync) (join " " texts))])%list,
     inl (SystemExit 0))).
  { intros texts tr0. cbv zeta. rewrite andb_true_r.
    unfold write_to_output, mirror_assignment, emit, sys_exit, raise, bind.
    now rewrite <- app_assoc. }
  unfold host_list in Hwf. apply orb_prop in Hwf.
  destruct Hwf as [Htext|Hbytes].
  - assert (Hh : has_decode h = false).
    { simpl in Htext. apply andb_prop in Htext. destruct Htext as [Hh _].
      unfold is_str in Hh. now destruct (has_decode h). }
    rewrite Hh.
    rewrite (bind_returns _ _ tr tr (h :: hosts)) by reflexivity.
    rewrite (bind_returns _ _ tr tr (map host_text (h :: hosts)))
      by (now apply mapM_as_text).
    apply Hout.
  - assert (Hh : has_decode h = true).
    { simpl in Hbytes. apply andb_prop in Hbytes. destruct Hbytes as [Hh _].
      now destruct h. }
    rewrite Hh.
    rewrite (bind_returns _ _ tr tr (map (fun x => Str (host_text x)) (h :: hosts)))
      by (now apply mapM_decode).
    rewrite (bind_returns _ _ tr tr (map host_text (h :: hosts)))
      by (rewrite <- decoded_text; apply mapM_as_text, decoded_are_text).
    apply Hout.
Qed.

Lemma change_config_out_witness :
  change_config [Str "http://a.example/"; Str "http://b.example/"] true
    "/etc/portage/make.conf" false [] =
  ([Stdout EmptyString;
    Stdout ("GENTOO_MIRRORS=" ++ dquote ++ "http://a.example/ http://b.example/" ++ dquote)],
   inl (SystemExit 0)).
Proof.
  apply (change_config_out_prints_and_exits
           [Str "http://a.example/"; Str "http://b.example/"]
           "/etc/portage/make.conf" false []).
  - discriminate.
  - reflexivity.
Defined.

(** C9, as stated, fails: a host list need not decode.  For the one host
    made of the byte 255, which is not UTF-8, [change_config] with
    [out=True] prints nothing and ends in [UnicodeDecodeError], not in
    [SystemExit]. *)
Lemma change_config_out_undecodable_host :
  change_config [Bytes (String (ascii_of_nat 255) EmptyString)] true
    "/etc/portage/make.conf" false [] =
  ([], inl UnicodeDecodeError).
Proof. reflexivity. Qed.

(** On a well-formed host list [change_config] reaches its last statement. *)
Lemma change_config_well_formed (hosts : list pystr) (out : bool)
    (config_path : string) (sync : bool) tr :
  hosts <> [] ->
  host_list hosts = true ->
  change_config hosts out config_path sync tr =
    (let var := config_var config_path sync in
     let joined := join " " (map host_text hosts) in
     let mirror_string :=
       if (var =? "sync-uri") && out
       then var ++ " = " ++ joined
       else var ++ "=" ++ dquote ++ joined ++ dquote in
     if out then write_to_output mirror_string
     else if var =? "sync-uri" then write_repos_conf config_path var joined
     else write_make_conf config_path var mirror_string) tr.
Proof.
  intros Hne Hwf. unfold change_config.
  destruct hosts as [|h hosts]; [congruence|].
  unfold index0. rewrite (bind_returns _ _ tr tr h) by reflexivity.
  unfold host_list in Hwf. apply orb_prop in Hwf.
  destruct Hwf as [Htext|Hbytes].
  - assert (Hh : has_decode h = false).
    { simpl in Htext. apply andb_prop in Htext. destruct Htext as [Hh _].
      unfold is_str in Hh. now destruct (has_decode h). }
    rewrite Hh.
    rewrite (bind_returns _ _ tr tr (h :: hosts)) by reflexivity.
    now rewrite (bind_returns _ _ tr tr (map host_text (h :: hosts)))
      by (now apply mapM_as_text).
  - assert (Hh : has_decode h = true).
    { simpl in Hbytes. apply andb_prop in Hbytes. destruct Hbytes as [Hh _].
      now destruct h. }
    rewrite Hh.
    rewrite (bind_returns _ _ tr tr (map (fun x => Str (host_text x)) (h :: hosts)))
      by (now apply mapM_decode).
    now rewrite (bind_returns _ _ tr tr (map host_text (h :: hosts)))
      by (rewrite <- decoded_text; apply mapM_as_text, decoded_are_text).
Qed.

(** ** [main] in all-mirrors mode and without results *)

Lemma main_steps (w : World) (argv : list string) tr tr' config_path options
    fsmirrors hosts :
  main_setup w argv tr = (tr', inr (config_path, options, fsmirrors, hosts)) ->
  main w argv tr =
    bind (main_urls w hosts options)
      (fun urls => main_finish config_path options fsmirrors urls) tr'.
Proof. intros H. unfold main. now rewrite (bind_returns _ _ _ _ _ H). Qed.

(** When the chosen list is empty, [main] says so and ends normally, having
    written no configuration. *)
Lemma main_without_results (w : World) (argv : list string) tr tr1 tr2
    config_path options fsmirrors hosts :
  main_setup w argv tr = (tr1, inr (config_path, options, fsmirrors, hosts)) ->
  main_urls w hosts options tr1 = (tr2, inr []) ->
  main w argv tr = ((tr2 ++ [OutputWrite no_results_message None])%list, inr tt).
Proof.
  intros Hsetup Hurls. rewrite (main_steps _ _ _ _ _ _ _ _ Hsetup).
  now rewrite (bind_returns _ _ _ _ _ Hurls).
Qed.

(** The head of a sorted list is below every element of a rearrangement. *)
Lemma sorted_head_least (first : string) (rest l : list string) :
  StronglySorted (fun a b => (a <=? b)%string = true) (first :: rest) ->
  Permutation (first :: rest) l ->
  forall u, In u l -> (first <=? u)%string = true.
Proof.
  intros Hs Hp u Hu.
  apply (Permutation_in _ (Permutation_sym Hp)) in Hu.
  destruct Hu as [<-|Hu].
  - apply string_leb_refl.
  - apply StronglySorted_inv in Hs. destruct Hs as [_ Hall].
    rewrite Forall_forall in Hall. now apply Hall.
Qed.

(** C8.  In all-mirrors mode [main] probes nothing and outputs the
    extracted host URLs in ascending order: after the mirrors the
    configuration already holds, all of them, or, when rsync mode is
    active too, the smallest alone, go into the one assignment that [main]
    prints (with [--output]) or writes to the configuration file.  With no
    host and without rsync mode it reports that nothing was found. *)
Theorem all_mirrors_outputs_sorted_urls (w : World) (argv : list string)
    tr tr' config_path options fsmirrors hosts :
  main_setup w argv tr = (tr', inr (config_path, options, fsmirrors, hosts)) ->
  truthy (getattr options "all_mirrors") = true ->
  let urls := sorted (map fst hosts) in
    Permutation urls (map fst hosts) /\
    StronglySorted (fun a b => (a <=? b)%string = true) urls /\
    (truthy (getattr options "rsync") = false ->
     main w argv tr = main_finish config_path options fsmirrors (map Str urls) tr') /\
    (forall first rest, urls = first :: rest ->
       (forall u, In u (map fst hosts) -> (first <=? u)%string = true) /\
       main w argv tr =
         change_config
           (fsmirrors ++
              (if truthy (getattr options "rsync") then [Str first]
               else map Str urls))%list
           (truthy (getattr options "output")) config_path
           (truthy (getattr options "rsync")) tr') /\
    (forall first rest, urls = first :: rest ->
       forallb is_str fsmirrors = true ->
       let sync := truthy (getattr options "rsync") in
       let var := config_var config_path sync in
       let joined :=
         join " " (map host_text fsmirrors ++ (if sync then [first] else urls))%list in
       main w argv tr =
         if truthy (getattr options "output")
         then ((tr' ++ [Stdout EmptyString;
                        Stdout (mirror_assignment var joined)])%list,
               inl (SystemExit 0))
         else ((tr' ++ [if var =? "sync-uri"
                        then WriteReposConf config_path var joined
                        else WriteMakeConf config_path var
                               (var ++ "=" ++ dquote ++ joined ++ dquote)])%list,
               inr tt)) /\
    (urls = [] -> truthy (getattr options "rsync") = false ->
     main w argv tr = ((tr' ++ [OutputWrite no_results_message None])%list, inr tt)).
Proof.
  intros Hsetup Hall urls. unfold urls.
  pose proof (sorted_perm (map fst hosts)) as Hperm.
  pose proof (sorted_ascending (map fst hosts)) as Hsorted.
  assert (Hcall : forall first rest, sorted (map fst hosts) = first :: rest ->
            main w argv tr =
              change_config
                (fsmirrors ++
                   (if truthy (getattr options "rsync") then [Str first]
                    else map Str (sorted (map fst hosts))))%list
                (truthy (getattr options "output")) config_path
                (truthy (getattr options "rsync")) tr').
  { intros first rest Hurls.
    rewrite (main_steps _ _ _ _ _ _ _ _ Hsetup).
    unfold main_urls. rewrite Hall, Hurls.
    unfold main_finish, bind, index0, ret.
    destruct (truthy (getattr options "rsync")); reflexivity. }
  split; [exact Hperm|]. split; [exact Hsorted|]. split; [|split; [|split]].
  - intros Hrsync. rewrite (main_steps _ _ _ _ _ _ _ _ Hsetup).
    unfold main_urls. now rewrite Hall, Hrsync.
  - intros first rest Hurls. split.
    + rewrite Hurls in Hsorted, Hperm. now apply sorted_head_least with rest.
    + now apply Hcall with rest.
  - intros first rest Hurls Hfs.
    rewrite (Hcall first rest Hurls).
    set (sync := truthy (getattr options "rsync")).
    set (var := config_var config_path sync).
    set (kept := if sync then [first] else sorted (map fst hosts)).
    set (joined := join " " (map host_text fsmirrors ++ kept)%list).
    assert (Hkept : (if sync then [Str first] else map Str (sorted (map fst hosts)))
                    = map Str kept) by (unfold kept; now destruct sync).
    rewrite Hkept.
    assert (Htexts : map host_text (fsmirrors ++ map Str kept)
                     = (map host_text fsmirrors ++ kept)%list).
    { rewrite map_app, map_map. simpl. now rewrite map_id. }
    rewrite change_config_well_formed.
    + cbv zeta. rewrite Htexts. fold var. fold joined.
      destruct (truthy (getattr options "output")).
      * rewrite andb_true_r.
        unfold write_to_output, mirror_assignment, emit, sys_exit, raise, bind.
        now rewrite <- app_assoc.
      * unfold write_repos_conf, write_make_conf, emit. rewrite andb_false_r.
        now destruct (var =? "sync-uri").
    + unfold kept. rewrite Hurls.
      destruct fsmirrors; destruct sync; discriminate.
    + unfold host_list. rewrite forallb_app, Hfs. cbn [andb].
      replace (forallb is_str (map Str kept)) with true; [reflexivity|].
      symmetry. apply forallb_forall. intros h Hh.
      apply in_map_iff in Hh. now destruct Hh as (u & <- & _).
  - intros Hurls Hrsync.
    apply (main_without_results w argv tr tr' tr' config_path options fsmirrors hosts);
      [exact Hsetup|].
    unfold main_urls. rewrite Hall, Hurls, Hrsync. reflexivity.
Qed.

Lemma all_mirrors_outputs_sorted_urls_witness :
  let hosts : list (string * HostArgs) :=
    [("http://b.example/", []); ("http://a.example/", [])] in
  main (sample_world hosts []) ["mirrorselect"; "-a"; "-o"] [] =
    ([SetVerbosity 1;
      OutputWrite ("main(); config_path = /etc/portage/make.conf" ++ nl) (Some 2%Z);
      OutputWrite "main(); rsync = False" (Some 2%Z);
      OutputWrite "using url: distfiles.xml" (Some 2%Z);
      Stdout EmptyString;
      Stdout ("GENTOO_MIRRORS=" ++ dquote ++ "http://a.example/ http://b.example/"
              ++ dquote)],
     inl (SystemExit 0)).
Proof.
  intros hosts.
  set (w := sample_world hosts []). set (argv := ["mirrorselect"; "-a"; "-o"]).
  destruct (main_setup w argv []) as [tr' [e|[[[config_path options] fsmirrors] hs]]]
    eqn:Hsetup.
  - vm_compute in Hsetup. discriminate Hsetup.
  - pose proof Hsetup as Hrun. vm_compute in Hrun.
    inversion Hrun; subst tr' config_path options fsmirrors hs. clear Hrun.
    refine (eq_trans
              (proj1 (proj2 (proj2 (proj2 (proj2
                 (all_mirrors_outputs_sorted_urls w argv [] _ _ _ _ _ Hsetup eq_refl)))))
                 "http://a.example/" ["http://b.example/"] eq_refl eq_refl) _).
    reflexivity.
Defined.

(** C10.  With all-mirrors mode and rsync mode both active and no host
    extracted, [main] raises [IndexError], from taking the first element of
    the empty sorted list; the message for an empty result is not written. *)
Theorem all_mirrors_rsync_without_hosts_raises (w : World) (argv : list string)
    tr tr' config_path options fsmirrors :
  main_setup w argv tr = (tr', inr (config_path, options, fsmirrors, [])) ->
  truthy (getattr options "all_mirrors") = true ->
  truthy (getattr options "rsync") = true ->
  main w argv tr = (tr', inl IndexError).
Proof.
  intros Hsetup Hall Hrsync.
  rewrite (main_steps _ _ _ _ _ _ _ _ Hsetup).
  unfold main_urls. rewrite Hall, Hrsync. reflexivity.
Qed.

Lemma all_mirrors_rsync_without_hosts_witness :
  exists tr',
    main (sample_world [] []) ["mirrorselect"; "--all_mirrors"; "--rsync"] [] =
    (tr', inl IndexError).
Proof.
  eexists.
  eapply (all_mirrors_rsync_without_hosts_raises (sample_world [] [])
            ["mirrorselect"; "--all_mirrors"; "--rsync"] []).
  - vm_compute. reflexivity.
  - reflexivity.
  - reflexivity.
Defined.

(** C3, at the input where the code departs from it: [mirrorselect -a -r -o]
    when the filters leave no host.  The run ends in [IndexError]; the last
    thing it wrote is the URL it read the mirrors from, not the message for
    an empty result. *)
Theorem no_hosts_all_mirrors_rsync_run :
  main (sample_world [] []) ["mirrorselect"; "-a"; "-r"; "-o"] [] =
  ([SetVerbosity 1;
    OutputWrite ("main(); config_path = /etc/portage/make.conf" ++ nl) (Some 2%Z);
    OutputWrite ("Failed access to gentoo.conf: False" ++ nl) (Some 2%Z);
    OutputWrite ("main(); reset config_path = /etc/portage/make.conf" ++ nl) (Some 2%Z);
    OutputWrite "using url: rsync.xml" (Some 2%Z)],
   inl IndexError).
Proof. vm_compute. reflexivity. Qed.

(** ** The defaults of [--timeout] and [--servers] *)

Lemma getattr_setattr_other (values : Values) (d name : string) (v : pyval) :
  d <> name -> getattr (setattr values d v) name = getattr values name.
Proof.
  intros Hne. induction values as [|[n v0] values IH]; simpl.
  - destruct (String.eqb_spec d name); [contradiction|reflexivity].
  - destruct (String.eqb_spec n d) as [->|Hnd]; simpl.
    + destruct (String.eqb_spec d name); [contradiction|reflexivity].
    + destruct (String.eqb_spec n name); [reflexivity|apply IH].
Qed.

(** An option leaves the attributes of the other destinations alone. *)
Lemma process_other_dest (o : Option_) (opt : string) (value : option string)
    (values values' : Values) (name : string) tr tr' :
  process o opt value values tr = (tr', inr values') ->
  option_dest o <> Some name ->
  getattr values' name = getattr values name.
Proof.
  unfold process. intros H Hdest.
  apply bind_returned in H. destruct H as (v & tr1 & _ & H).
  assert (Hset : forall d x, option_dest o = Some d ->
            getattr (setattr values d x) name = getattr values name).
  { intros d x Hd. apply getattr_setattr_other. congruence. }
  destruct (action o), (option_dest o) as [d|];
    unfold ret, bind, emit, sys_exit, raise in H; inversion H; subst;
    auto.
Qed.

Lemma run_items_other_dest (name : string) (items : list item) :
  forall (values values' : Values) (largs largs' : list string) tr tr',
  run_items items values largs tr = (tr', inr (values', largs')) ->
  (forall o opt value, In (Occurrence o opt value) items -> option_dest o <> Some name) ->
  getattr values' name = getattr values name.
Proof.
  induction items as [|it items IH]; simpl; intros values values' largs largs' tr tr' H Hocc.
  - unfold ret in H. now inversion H.
  - destruct it as [o opt value|arg|rest|e].
    + apply bind_returned in H. destruct H as (values1 & tr1 & Hp & H).
      rewrite (IH _ _ _ _ _ _ H) by (intros; eapply Hocc; right; eassumption).
      eapply process_other_dest; [exact Hp|]. eapply Hocc. now left.
    + eapply IH; [exact H|]. intros; eapply Hocc; right; eassumption.
    + unfold ret in H. now inversion H.
    + unfold parser_error, bind, emit, sys_exit, raise in H. discriminate.
Qed.

(** The options [_parse_args] returns are those [parse_args] stored, up to
    the [ipv6] attribute, which a sanity check may reset. *)
Lemma _parse_args_returned (w : World) (argv : list string) (config_path : string)
    tr tr' options :
  _parse_args w argv config_path tr = (tr', inr options) ->
  exists values args tr0 tr1,
    parse_args mirrorselect_options (tl argv) tr0 = (tr1, inr (values, args)) /\
    (options = values \/ options = setattr values "ipv6" (PyBool false)).
Proof.
  unfold _parse_args. intros H.
  apply bind_returned in H. destruct H as (? & tr0 & _ & H).
  apply bind_returned in H. destruct H as ([values args] & tr1 & Hparse & H).
  exists values, args, tr0, tr1. split; [exact Hparse|].
  apply bind_returned in H. destruct H as (? & ? & _ & H).
  apply bind_returned in H. destruct H as (? & ? & _ & H).
  apply bind_returned in H. destruct H as (options1 & tr2 & Hipv6 & H).
  assert (Hopt : options1 = values \/ options1 = setattr values "ipv6" (PyBool false)).
  { destruct ((truthy (getattr values "ipv6") && negb (has_ipv6 w))
              && negb (truthy (getattr values "interactive"))).
    - apply bind_returned in Hipv6. destruct Hipv6 as (? & ? & _ & Hret).
      unfold ret in Hret. inversion Hret. now right.
    - unfold ret in Hipv6. inversion Hipv6. now left. }
  repeat (apply bind_returned in H; destruct H as (? & ? & _ & H)).
  unfold ret in H. inversion H. now subst.
Qed.

(** C7.  The parser's defaults give the deep-mode timeout the value 10 and
    the number of servers the value 1, and these are the values of the
    options [_parse_args] returns for every command line on which neither
    [-t]/[--timeout] nor [-s]/[--servers] occurs. *)
Theorem timeout_and_servers_defaults :
  (exists defaults,
     get_default_values mirrorselect_options = Some defaults /\
     getattr defaults "timeout" = PyInt 10 /\
     getattr defaults "servers" = PyInt 1) /\
  forall (w : World) (argv : list string) (config_path : string) tr tr' options,
    _parse_args w argv config_path tr = (tr', inr options) ->
    (forall o opt value,
       In (Occurrence o opt value) (lex mirrorselect_options (tl argv)) ->
       option_dest o <> Some "timeout" /\ option_dest o <> Some "servers") ->
    getattr options "timeout" = PyInt 10 /\ getattr options "servers" = PyInt 1.
Proof.
  split.
  - eexists. split; [vm_compute; reflexivity|]. split; reflexivity.
  - intros w argv config_path tr tr' options Hrun Hocc.
    apply _parse_args_returned in Hrun.
    destruct Hrun as (values & args & tr0 & tr1 & Hparse & Hopt).
    unfold parse_args in Hparse.
    destruct (get_default_values mirrorselect_options) as [defaults|] eqn:Hdef;
      [|discriminate].
    assert (Hd : getattr defaults "timeout" = PyInt 10 /\
                 getattr defaults "servers" = PyInt 1).
    { vm_compute in Hdef. inversion Hdef. split; reflexivity. }
    assert (Hv : getattr values "timeout" = getattr defaults "timeout" /\
                 getattr values "servers" = getattr defaults "servers").
    { split.
      - apply (run_items_other_dest "timeout" _ _ _ _ _ _ _ Hparse).
        intros o opt value Hin. apply Hocc in Hin. tauto.
      - apply (run_items_other_dest "servers" _ _ _ _ _ _ _ Hparse).
        intros o opt value Hin. apply Hocc in Hin. tauto. }
    destruct Hd as [Ht Hs], Hv as [Hvt Hvs]. clear Hdef Hparse Hocc.
    rewrite <- Hvt in Ht. rewrite <- Hvs in Hs.
    destruct Hopt as [->| ->].
    + split; assumption.
    + rewrite !getattr_setattr_other by discriminate. split; assumption.
Qed.

Lemma timeout_and_servers_defaults_witness :
  exists tr' options,
    _parse_args (sample_world [] []) ["mirrorselect"; "-D"; "--country=Norway"]
      "/etc/portage/make.conf" [] = (tr', inr options) /\
    getattr options "timeout" = PyInt 10 /\ getattr options "servers" = PyInt 1.
Proof.
  do 2 eexists. split.
  - vm_compute. reflexivity.
  - eapply (proj2 timeout_and_servers_defaults (sample_world [] [])
              ["mirrorselect"; "-D"; "--country=Norway"] "/etc/portage/make.conf" []).
    + vm_compute. reflexivity.
    + vm_compute. intros o opt value [H|[H|[]]]; inversion H; split; discriminate.
Defined.

(** ** The Ranker (modelled from the specification) *)

Lemma StronglySorted_weaken {A : Type} (R R' : A -> A -> Prop) (l : list A) :
  (forall a b, R a b -> R' a b) -> StronglySorted R l -> StronglySorted R' l.
Proof.
  intros Himpl. induction 1 as [|x l Hl IH Hx]; constructor.
  - exact IH.
  - eapply Forall_impl; [apply Himpl|exact Hx].
Qed.

Lemma filter_perm {A : Type} (f : A -> bool) (l l' : list A) :
  Permutation l l' -> Permutation (filter f l) (filter f l').
Proof.
  induction 1 as [|x l l' Hp IH|x y l|l l' l'' Hp1 IH1 Hp2 IH2]; simpl.
  - apply perm_nil.
  - destruct (f x); [apply perm_skip|]; exact IH.
  - destruct (f x), (f y); try apply Permutation_refl. apply perm_swap.
  - now apply perm_trans with (filter f l').
Qed.

Lemma filter_all {A : Type} (f : A -> bool) (l : list A) :
  (forall x, In x l -> f x = true) -> filter f l = l.
Proof.
  induction l as [|x l IH]; simpl; intros H.
  - reflexivity.
  - rewrite (H x) by now left. f_equal. apply IH. intros y Hy. apply H. now right.
Qed.

Lemma NoDup_map_same_key {A B : Type} (key : A -> B) (l : list A) (a b : A) :
  NoDup (map key l) -> In a l -> In b l -> key a = key b -> a = b.
Proof.
  induction l as [|x l IH]; simpl; intros H Ha Hb Hk; [contradiction|].
  inversion H as [|? ? Hnotin Hrest]; subst.
  destruct Ha as [->|Ha], Hb as [->|Hb]; auto.
  - exfalso. apply Hnotin. rewrite Hk. now apply in_map.
  - exfalso. apply Hnotin. rewrite <- Hk. now apply in_map.
Qed.

(** The comparison the sort uses decides the order of the specification. *)
Lemma ranks_before_precedes (d : Direction) (a b : ProbeResult) :
  ranks_before d a b = true <-> precedes d a b.
Proof.
  unfold ranks_before, precedes.
  destruct (Qcompare_spec (metric a) (metric b)) as [Heq|Hlt|Hgt], d;
    split; intros H;
    try discriminate;
    try (right; split; assumption);
    try (left; assumption);
    try (destruct H as [H|[H Hurl]]; [lra|]; try exact Hurl; lra);
    try reflexivity.
Qed.

Lemma ranks_before_total (d : Direction) (a b : ProbeResult) :
  ranks_before d a b = true \/ ranks_before d b a = true.
Proof.
  unfold ranks_before. rewrite <- (Qcompare_antisym (metric a) (metric b)).
  destruct (metric a ?= metric b)%Q, d; simpl; auto.
  - apply String.leb_total.
  - apply String.leb_total.
Qed.

Lemma ranks_before_trans (d : Direction) (a b c : ProbeResult) :
  ranks_before d a b = true -> ranks_before d b c = true -> ranks_before d a c = true.
Proof.
  rewrite !ranks_before_precedes. unfold precedes.
  intros [Hab|[Hab Uab]] [Hbc|[Hbc Ubc]].
  - left. destruct d; lra.
  - left. destruct d; lra.
  - left. destruct d; lra.
  - right. split; [lra|]. now apply string_leb_trans with (url (record b)).
Qed.

Lemma ranked_results_perm (results : list ProbeResult) (d : Direction) :
  Permutation (ranked_results results d) (filter is_success results).
Proof. apply sort_by_perm. Qed.

Lemma ranked_results_sorted (results : list ProbeResult) (d : Direction) :
  StronglySorted (fun a b => ranks_before d a b = true) (ranked_results results d).
Proof.
  apply sort_by_sorted.
  - apply ranks_before_total.
  - apply ranks_before_trans.
Qed.

Lemma ranked_results_success (results : list ProbeResult) (d : Direction)
    (r : ProbeResult) :
  In r (ranked_results results d) -> In r results /\ is_success r = true.
Proof.
  intros H. apply (Permutation_in _ (ranked_results_perm results d)) in H.
  now apply filter_In in H.
Qed.

(** C1.  [select] returns exactly the results of status [Success], sorted by
    metric in the strategy's direction with exact ties in ascending URL
    order, cut to the first [count] entries, and all of them when no count
    is given.  Of five candidates of which three succeed with throughputs
    10, 30 and 20, a count of two selects those with 30, then 20. *)
Theorem select_returns_ranked_successes
    (results : list ProbeResult) (d : Direction) (count : option nat) :
  select results d count = take count (map record (ranked_results results d)) /\
  Permutation (ranked_results results d) (filter is_success results) /\
  StronglySorted (precedes d) (ranked_results results d) /\
  select results d None = map record (ranked_results results d) /\
  (forall n, select results d (Some n) = firstn n (select results d None)) /\
  (forall r1 r2 r3 r4 r5 : MirrorRecord,
     select [mkResult r1 10 Success; mkResult r2 0 Timeout; mkResult r3 30 Success;
             mkResult r4 0 Unreachable; mkResult r5 20 Success]
       Descending (Some 2%nat) = [r3; r5]).
Proof.
  repeat split.
  - apply ranked_results_perm.
  - eapply StronglySorted_weaken; [|apply ranked_results_sorted].
    intros a b Hab. now apply ranks_before_precedes.
Qed.

(** C5.  Ranking is idempotent and reproducible: ranking the ranked results
    again, or selecting from them, changes nothing; two ranked results with
    the same metric stand in ascending URL order; and, for results with
    distinct URLs, the order in which they were collected does not change
    what is selected. *)
Theorem ranker_idempotent_and_deterministic
    (results : list ProbeResult) (d : Direction) :
  rank d (ranked_results results d) = ranked_results results d /\
  (forall count, select (ranked_results results d) d count = select results d count) /\
  (forall l1 a l2 b l3,
     ranked_results results d = (l1 ++ a :: l2 ++ b :: l3)%list ->
     (metric a == metric b)%Q ->
     (url (record a) <=? url (record b))%string = true) /\
  (forall results' count,
     Permutation results results' ->
     NoDup (map (fun r => url (record r)) (filter is_success results)) ->
     select results' d count = select results d count).
Proof.
  assert (Hidem : rank d (ranked_results results d) = ranked_results results d)
    by (apply sort_by_fixed, ranked_results_sorted).
  split; [exact Hidem|]. split; [|split].
  - intros count. unfold select. f_equal. f_equal.
    unfold ranked_results at 1.
    rewrite filter_all; [exact Hidem|].
    intros r Hr. now apply ranked_results_success in Hr.
  - intros l1 a l2 b l3 Hsplit Htie.
    pose proof (ranked_results_sorted results d) as Hs. rewrite Hsplit in Hs.
    apply sorted_apart in Hs. apply ranks_before_precedes in Hs.
    destruct Hs as [Hs|[_ Hurl]]; [destruct d; lra|exact Hurl].
  - intros results' count Hperm Hnodup. unfold select. f_equal. f_equal.
    symmetry. apply (sorted_unique (ranks_before d)).
    + intros a b Ha Hb Hab Hba.
      apply ranks_before_precedes in Hab, Hba.
      assert (Hurl : url (record a) = url (record b)).
      { destruct Hab as [Hab|[Hab Uab]], Hba as [Hba|[Hba Uba]];
          try (destruct d; lra). now apply String.leb_antisym. }
      apply (NoDup_map_same_key (fun r => url (record r)) (ranked_results results d));
        try assumption.
      apply (Permutation_NoDup (l := map (fun r => url (record r))
                                       (filter is_success results))); [|exact Hnodup].
      apply Permutation_map, Permutation_sym, ranked_results_perm.
    + apply ranked_results_sorted.
    + apply ranked_results_sorted.
    + apply perm_trans with (filter is_success results).
      * apply ranked_results_perm.
      * apply perm_trans with (filter is_success results').
        -- now apply filter_perm.
        -- apply Permutation_sym, ranked_results_perm.
Qed.

Lemma ranker_idempotent_and_deterministic_witness :
  let a := mkResult (mkMirror "http://a.example/" None None) 5 Success in
  let b := mkResult (mkMirror "http://b.example/" None None) 5 Success in
  let c := mkResult (mkMirror "http://c.example/" None None) 0 Timeout in
  select [c; a; b] Ascending None = select [b; a; c] Ascending None /\
  select [b; a; c] Ascending None = map record [a; b].
Proof.
  intros a b c. split; [|reflexivity].
  apply (proj2 (proj2 (proj2 (ranker_idempotent_and_deterministic [b; a; c] Ascending)))).
  - apply (Permutation_rev [b; a; c]).
  - simpl. repeat constructor; simpl; intuition discriminate.
Defined.

(** ** ShallowProbe (modelled from the specification) *)

Lemma blocks_concat {A : Type} (size : nat) (l : list A) :
  forall block, List.concat (blocks size block l) = (block ++ l)%list.
Proof.
  induction l as [|x l IH]; intros block; cbn [blocks].
  - rewrite app_nil_r. destruct block; [reflexivity|].
    cbn [List.concat]. now rewrite app_nil_r.
  - destruct (S (List.length block) =? size)%nat.
    + rewrite concat_cons, IH, <- app_assoc. reflexivity.
    + rewrite IH, <- app_assoc. reflexivity.
Qed.

Lemma blocks_bounded {A : Type} (size : nat) (l : list A) :
  forall block, (List.length block < size)%nat ->
  Forall (fun b => (1 <= List.length b <= size)%nat) (blocks size block l).
Proof.
  induction l as [|x l IH]; intros block Hlt; cbn [blocks].
  - destruct block as [|y block]; constructor; [|constructor].
    cbn [List.length] in *. lia.
  - destruct (Nat.eqb_spec (S (List.length block)) size) as [Hfull|Hroom].
    + constructor.
      * rewrite length_app. cbn [List.length]. lia.
      * apply IH. cbn [List.length]. lia.
    + apply IH. rewrite length_app. cbn [List.length]. lia.
Qed.

Lemma blocks_count {A : Type} (size : nat) (l : list A) :
  forall block, (List.length block < size)%nat ->
  List.length (blocks size block l) =
  ((List.length block + List.length l + size - 1) / size)%nat.
Proof.
  induction l as [|x l IH]; intros block Hlt; cbn [blocks].
  - destruct block as [|y block]; cbn [List.length] in *.
    + symmetry. apply Nat.div_small. lia.
    + apply (Nat.div_unique _ size 1 (List.length block)); lia.
  - destruct (Nat.eqb_spec (S (List.length block)) size) as [Hfull|Hroom];
      cbn [List.length].
    + rewrite IH by (cbn [List.length]; lia). cbn [List.length].
      replace (List.length block + S (List.length l) + size - 1)%nat
        with (1 * size + (0 + List.length l + size - 1))%nat by lia.
      rewrite Nat.div_add_l by lia. reflexivity.
    + rewrite IH by (rewrite length_app; cbn [List.length]; lia).
      rewrite length_app. cbn [List.length]. f_equal. lia.
Qed.

Lemma rank_blocks_from (oracle : Oracle) (count : nat) (batches : list (list string)) :
  forall run,
  fold_left (rank_block oracle count) batches run =
  mkShallowRun (calls run ++ batches)
    (ranked run ++ List.concat (map (oracle_answer oracle count) batches))
    (failed run ++ filter (fun b => match oracle b count with
                                    | Some _ => false
                                    | None => true
                                    end) batches).
Proof.
  induction batches as [|b batches IH]; intros run; simpl.
  - rewrite !app_nil_r. now destruct run.
  - rewrite IH. unfold rank_block, oracle_answer.
    destruct (oracle b count) as [best|]; simpl;
      now rewrite <- ?app_assoc, ?app_nil_r.
Qed.

(** C4.  With a block size configured, ShallowProbe sends the candidates to
    the oracle in sequential sub-batches of at most that size, one call per
    sub-batch, and returns the oracle's answers concatenated in the order
    of the calls; a sub-batch whose call fails adds nothing.  Twenty-five
    candidates and a block size of ten make three calls. *)
Theorem shallow_probe_blocks (oracle : Oracle) (config : Configuration)
    (candidates : list MirrorRecord) (size : nat) :
  blockSize config = Some size ->
  (0 < size)%nat ->
  let run := shallow_probe oracle config candidates in
  List.concat (calls run) = map url candidates /\
  Forall (fun b => (1 <= List.length b <= size)%nat) (calls run) /\
  List.length (calls run) = ((List.length candidates + size - 1) / size)%nat /\
  ranked run = List.concat (map (oracle_answer oracle (requestedCount config)) (calls run)) /\
  (List.length candidates = 25%nat -> size = 10%nat -> List.length (calls run) = 3%nat).
Proof.
  intros Hsize Hpos run. unfold run, shallow_probe. rewrite Hsize.
  rewrite rank_blocks_from. simpl.
  assert (Hcount : List.length (blocks size [] (map url candidates)) =
                   ((List.length candidates + size - 1) / size)%nat).
  { rewrite blocks_count by (simpl; lia). now rewrite length_map. }
  repeat split.
  - apply blocks_concat.
  - apply blocks_bounded. simpl. lia.
  - exact Hcount.
  - intros H25 H10. rewrite Hcount, H25, H10. reflexivity.
Qed.

Lemma shallow_probe_blocks_witness :
  let config := mkConfiguration Shallow None None None None (Some 2%nat) 10 1 in
  let candidates :=
    [mkMirror "http://a.example/" None None; mkMirror "http://b.example/" None None;
     mkMirror "http://c.example/" None None] in
  let oracle : Oracle := fun urls count => Some (firstn count (rev urls)) in
  calls (shallow_probe oracle config candidates) =
    [["http://a.example/"; "http://b.example/"]; ["http://c.example/"]] /\
  ranked (shallow_probe oracle config candidates) =
    ["http://b.example/"; "http://c.example/"] /\
  List.length (calls (shallow_probe oracle config candidates)) = 2%nat.
Proof.
  intros config candidates oracle. split; [reflexivity|]. split; [reflexivity|].
  apply (proj1 (proj2 (proj2
    (shallow_probe_blocks oracle config candidates 2 eq_refl (Nat.lt_0_succ 1))))).
Defined.

(* ================================================================== *)
(** * Part III: further properties of the code *)
(* ================================================================== *)

(** ** [_have_bin] *)

Lemma first_executable_found (w : World) (name : string) (dirs : list string)
    (p : string) :
  first_executable w name dirs = Some p ->
  exists before path_dir after,
    dirs = (before ++ path_dir :: after)%list /\
    path_dir <> EmptyString /\
    p = os_path_join path_dir name /\
    executable_in w name path_dir = true /\
    forall d, In d before -> d <> EmptyString -> executable_in w name d = false.
Proof.
  induction dirs as [|d dirs IH]; simpl; intros H; [discriminate|].
  destruct (String.eqb_spec d EmptyString) as [Hempty|Hdir].
  - destruct (IH H) as (before & path_dir & after & -> & Hne & Hp & Hex & Hfirst).
    exists (d :: before), path_dir, after. repeat split; try assumption.
    intros d' [<-|Hin] Hd'; [contradiction|now apply Hfirst].
  - destruct (isfile w (os_path_join d name) && access_X_OK w (os_path_join d name))
      eqn:Hexec.
    + inversion H; subst. exists [], d, dirs. repeat split; try assumption.
      intros d' [].
    + destruct (IH H) as (before & path_dir & after & -> & Hne & Hp & Hex & Hfirst).
      exists (d :: before), path_dir, after. repeat split; try assumption.
      intros d' [<-|Hin] Hd'; [exact Hexec|now apply Hfirst].
Qed.

Lemma first_executable_none (w : World) (name : string) (dirs : list string) :
  first_executable w name dirs = None <->
  forall d, In d dirs -> d <> EmptyString -> executable_in w name d = false.
Proof.
  induction dirs as [|d dirs IH]; simpl.
  - split; [intros _ d []|reflexivity].
  - destruct (String.eqb_spec d EmptyString) as [Hempty|Hdir].
    + rewrite IH. split.
      * intros H d' [<-|Hin] Hd'; [contradiction|now apply H].
      * intros H d' Hin. apply H. now right.
    + fold (executable_in w name d).
      destruct (executable_in w name d) eqn:Hexec.
      * split; [discriminate|]. intros H.
        specialize (H d (or_introl eq_refl) Hdir). congruence.
      * rewrite IH. split.
        -- intros H d' [<-|Hin] Hd'; [exact Hexec|now apply H].
        -- intros H d' Hin. apply H. now right.
Qed.

(** X1.  What [_have_bin] returns is a file that the user may execute, under the
    first directory of [PATH] that holds one; empty fields of [PATH] are
    skipped and the directories before it hold none. *)
Theorem _have_bin_first_in_path (w : World) (name p : string) :
  _have_bin w name = Some p ->
  isfile w p = true /\ access_X_OK w p = true /\
  exists before path_dir after,
    path_dirs w = (before ++ path_dir :: after)%list /\
    path_dir <> EmptyString /\
    p = os_path_join path_dir name /\
    forall d, In d before -> d <> EmptyString -> executable_in w name d = false.
Proof.
  intros H. apply first_executable_found in H.
  destruct H as (before & path_dir & after & Hdirs & Hne & -> & Hex & Hfirst).
  unfold executable_in in Hex. apply andb_prop in Hex. destruct Hex as [Hfile Hx].
  repeat split; try assumption.
  now exists before, path_dir, after.
Qed.

Lemma _have_bin_first_in_path_witness :
  isfile (sample_world [] []) "/usr/bin/netselect" = true /\
  access_X_OK (sample_world [] []) "/usr/bin/netselect" = true /\
  exists before path_dir after,
    path_dirs (sample_world [] []) = (before ++ path_dir :: after)%list /\
    path_dir <> EmptyString /\
    "/usr/bin/netselect" = os_path_join path_dir "netselect" /\
    forall d, In d before -> d <> EmptyString ->
              executable_in (sample_world [] []) "netselect" d = false.
Proof.
  apply (_have_bin_first_in_path (sample_world [] []) "netselect" "/usr/bin/netselect").
  reflexivity.
Defined.

(** X2.  [_have_bin] finds nothing exactly when no directory of [PATH] holds an
    executable file of that name. *)
Theorem _have_bin_none_iff (w : World) (name : string) :
  _have_bin w name = None <->
  forall d, In d (path_dirs w) -> d <> EmptyString -> executable_in w name d = false.
Proof. apply first_executable_none. Qed.

(** ** [change_config]: every outcome *)

Lemma mapM_as_text_fails (hosts : list pystr) tr :
  forallb is_str hosts = false ->
  mapM as_text hosts tr = (tr, inl TypeError).
Proof.
  induction hosts as [|h hosts IH]; simpl; intros H; [discriminate|].
  destruct h as [s|b]; [|reflexivity].
  simpl in H. unfold bind at 1. simpl. unfold bind at 1. now rewrite (IH H).
Qed.

Lemma mapM_decode_fails (hosts : list pystr) tr :
  forallb is_utf8_bytes hosts = false ->
  exists e, mapM decode hosts tr = (tr, inl e) /\
            (e = AttributeError \/ e = UnicodeDecodeError).
Proof.
  induction hosts as [|h hosts IH]; simpl; intros H; [discriminate|].
  destruct h as [s|b].
  - exists AttributeError. split; [reflexivity|now left].
  - simpl in H. unfold bind at 1. simpl.
    destruct (utf8_valid b) eqn:Hb.
    + unfold ret at 1. destruct (IH H) as (e & He & Hkind).
      exists e. split; [|exact Hkind]. unfold bind at 1. now rewrite He.
    + exists UnicodeDecodeError. split; [reflexivity|now right].
Qed.

Lemma change_config_ill_formed (hosts : list pystr) (out : bool)
    (config_path : string) (sync : bool) (tr : list event) :
  hosts <> [] ->
  host_list hosts = false ->
  exists e,
    change_config hosts out config_path sync tr = (tr, inl e) /\
    match hd (Str EmptyString) hosts with
    | Str _ => e = TypeError
    | Bytes _ => e = AttributeError \/ e = UnicodeDecodeError
    end.
Proof.
  intros Hne Hwf. unfold change_config.
  destruct hosts as [|h hosts]; [congruence|].
  unfold index0. rewrite (bind_returns _ _ tr tr h) by reflexivity.
  unfold host_list in Hwf. apply orb_false_elim in Hwf. destruct Hwf as [Htext Hbytes].
  destruct h as [s|b]; cbn [has_decode hd].
  - exists TypeError. split; [|reflexivity].
    rewrite (bind_returns _ _ tr tr (Str s :: hosts)) by reflexivity.
    unfold bind. now rewrite (mapM_as_text_fails _ tr Htext).
  - destruct (mapM_decode_fails _ tr Hbytes) as (e & He & Hkind).
    exists e. split; [|exact Hkind]. unfold bind. now rewrite He.
Qed.

(** X3.  A host list that mixes text with bytes, or holds bytes that do not
    decode, is refused before anything is printed or written: with
    [TypeError] from the join when the first host is text, with
    [AttributeError] or [UnicodeDecodeError] from the decoding when it is
    bytes. *)
Theorem change_config_refuses_ill_formed_hosts (hosts : list pystr) (out : bool)
    (config_path : string) (sync : bool) (tr : list event) :
  hosts <> [] ->
  host_list hosts = false ->
  exists e,
    change_config hosts out config_path sync tr = (tr, inl e) /\
    match hd (Str EmptyString) hosts with
    | Str _ => e = TypeError
    | Bytes _ => e = AttributeError \/ e = UnicodeDecodeError
    end.
Proof. apply change_config_ill_formed. Qed.

Lemma change_config_refuses_ill_formed_hosts_witness :
  exists e,
    change_config [Str "/mnt/mirror"; Bytes "http://a.example/"] false
      "/etc/portage/make.conf" false [] = ([], inl e) /\
    e = TypeError.
Proof.
  apply (change_config_refuses_ill_formed_hosts
           [Str "/mnt/mirror"; Bytes "http://a.example/"] false
           "/etc/portage/make.conf" false []).
  - discriminate.
  - reflexivity.
Defined.

(** X4.  [change_config] called with [out=False] on a well-formed host list
    returns after one configuration write: [write_repos_conf] of the bare
    list under [sync-uri] when [sync] is set and the path contains
    [repos.conf], else [write_make_conf] of the quoted assignment to [SYNC]
    ([sync] set) or [GENTOO_MIRRORS]. *)
Theorem change_config_writes_once (hosts : list pystr) (config_path : string)
    (sync : bool) (tr : list event) :
  hosts <> [] ->
  host_list hosts = true ->
  let joined := join " " (map host_text hosts) in
  let var := if sync then "SYNC" else "GENTOO_MIRRORS" in
  change_config hosts false config_path sync tr =
    ((tr ++ [if sync && contains "repos.conf" config_path
             then WriteReposConf config_path "sync-uri" joined
             else WriteMakeConf config_path var
                    (var ++ "=" ++ dquote ++ joined ++ dquote)])%list,
     inr tt).
Proof.
  intros Hne Hwf joined var.
  rewrite (change_config_well_formed hosts false config_path sync tr Hne Hwf).
  unfold config_var, var. cbv zeta.
  destruct sync; [destruct (contains "repos.conf" config_path)|]; reflexivity.
Qed.

Lemma change_config_writes_once_witness :
  change_config [Bytes "rsync://a.example/gentoo-portage"] false
    "/etc/portage/repos.conf/gentoo.conf" true [] =
  ([WriteReposConf "/etc/portage/repos.conf/gentoo.conf" "sync-uri"
      "rsync://a.example/gentoo-portage"], inr tt).
Proof.
  apply (change_config_writes_once [Bytes "rsync://a.example/gentoo-portage"]
           "/etc/portage/repos.conf/gentoo.conf" true []).
  - discriminate.
  - reflexivity.
Defined.

Lemma change_config_cases (hosts : list pystr) (out : bool)
    (config_path : string) (sync : bool) (tr : list event) :
  match change_config hosts out config_path sync tr with
  | (tr', inr _) =>
      out = false /\ exists e, is_config_write e = true /\ tr' = (tr ++ [e])%list
  | (tr', inl (SystemExit code)) =>
      out = true /\ code = 0%Z /\
      exists line, tr' = (tr ++ [Stdout EmptyString; Stdout line])%list
  | (tr', inl e) => tr' = tr /\ (e = IndexError <-> hosts = [])
  end.
Proof.
  destruct hosts as [|h hosts].
  - simpl. split; [reflexivity|]. split; reflexivity.
  - destruct (host_list (h :: hosts)) eqn:Hwf.
    + rewrite (change_config_well_formed (h :: hosts) out config_path sync tr)
        by (assumption || discriminate).
      cbv zeta. destruct out.
      * unfold write_to_output, emit, sys_exit, raise, bind.
        split; [reflexivity|]. split; [reflexivity|].
        eexists. now rewrite <- app_assoc.
      * unfold write_repos_conf, write_make_conf, emit.
        destruct (config_var config_path sync =? "sync-uri");
          (split; [reflexivity|]); eexists; (split; [|reflexivity]); reflexivity.
    + destruct (change_config_ill_formed (h :: hosts) out config_path
                  sync tr) as (e & -> & Hkind); [discriminate|exact Hwf|].
      simpl in Hkind.
      assert (He : e = TypeError \/ e = AttributeError \/ e = UnicodeDecodeError)
        by (destruct h; tauto).
      destruct He as [->|[->| ->]]; (split; [reflexivity|]);
        split; intros; discriminate.
Qed.

(** X5.  Whatever its arguments, [change_config] ends in one of three ways: it
    returns, with [out] unset, after exactly one configuration write; it
    raises [SystemExit] with code 0, with [out] set, after printing two
    lines and writing nothing; or it raises another exception having
    printed and written nothing, [IndexError] exactly when the host list
    is empty. *)
Theorem change_config_outcomes (hosts : list pystr) (out : bool)
    (config_path : string) (sync : bool) (tr : list event) :
  match change_config hosts out config_path sync tr with
  | (tr', inr _) =>
      out = false /\ exists e, is_config_write e = true /\ tr' = (tr ++ [e])%list
  | (tr', inl (SystemExit code)) =>
      out = true /\ code = 0%Z /\
      exists line, tr' = (tr ++ [Stdout EmptyString; Stdout line])%list
  | (tr', inl e) => tr' = tr /\ (e = IndexError <-> hosts = [])
  end.
Proof. apply change_config_cases. Qed.

(** ** [main]: what it targets and what it leaves alone *)

(** X6.  Started without arguments, the tool prints its help and exits with
    status 1, in every world: no sanity check is made, and neither the
    [Extractor], a selector nor the configuration is touched. *)
Theorem main_without_arguments (w : World) (prog config_path : string)
    (tr : list event) :
  _parse_args w [prog] config_path tr = ((tr ++ [PrintHelp])%list, inl (SystemExit 1)) /\
  main w [prog] tr = ((tr ++ [PrintHelp])%list, inl (SystemExit 1)).
Proof. split; reflexivity. Qed.

Lemma get_conf_path_returns (w : World) (rsync : pyval) tr :
  exists messages,
    get_conf_path w rsync tr =
      ((tr ++ messages)%list,
       inr (if truthy rsync && access_F_OK w gentoo_conf then gentoo_conf
            else get_make_conf_path w EPREFIX)) /\
    forallb (fun e => negb (is_config_write e)) messages = true.
Proof.
  unfold get_conf_path. fold gentoo_conf.
  destruct (truthy rsync); simpl.
  - destruct (access_F_OK w gentoo_conf); simpl.
    + exists []. now rewrite app_nil_r.
    + eexists [_]. split; reflexivity.
  - exists []. now rewrite app_nil_r.
Qed.

Lemma main_setup_returned (w : World) (argv : list string) tr tr' config_path
    options fsmirrors hosts :
  main_setup w argv tr = (tr', inr (config_path, options, fsmirrors, hosts)) ->
  config_path =
    (if truthy (getattr options "rsync") && access_F_OK w gentoo_conf then gentoo_conf
     else get_make_conf_path w EPREFIX) /\
  exists tr0 tr1,
    _parse_args w argv (get_make_conf_path w EPREFIX) tr0 = (tr1, inr options).
Proof.
  unfold main_setup. intros H.
  apply bind_returned in H. destruct H as (cp0 & tr0 & Hcp0 & H).
  assert (Hcp : cp0 = get_make_conf_path w EPREFIX).
  { unfold get_conf_path in Hcp0. simpl in Hcp0. unfold ret in Hcp0.
    now inversion Hcp0. }
  subst cp0.
  apply bind_returned in H. destruct H as (options0 & tr1 & Hparse & H).
  apply bind_returned in H. destruct H as (u1 & tr2 & _ & H).
  apply bind_returned in H. destruct H as (u2 & tr3 & _ & H).
  apply bind_returned in H. destruct H as (cp1 & tr4 & Hcp1 & H).
  apply bind_returned in H. destruct H as (fsm & tr5 & _ & H).
  apply bind_returned in H. destruct H as (hs & tr6 & _ & H).
  unfold ret in H. inversion H; subst cp1 options0 fsm hs.
  split; [|now exists tr0, tr1].
  destruct (truthy (getattr options "rsync")) eqn:Hrsync.
  - apply bind_returned in Hcp1. destruct Hcp1 as (cp2 & tr7 & Hcp2 & Hret).
    apply bind_returned in Hret. destruct Hret as (u3 & tr8 & _ & Hret).
    unfold ret in Hret. inversion Hret; subst cp2.
    destruct (get_conf_path_returns w (getattr options "rsync") tr3) as (m & Hm & _).
    rewrite Hm in Hcp2. rewrite Hrsync in Hcp2. now inversion Hcp2.
  - apply bind_returned in Hcp1. destruct Hcp1 as (u3 & tr7 & _ & Hret).
    unfold ret in Hret. now inversion Hret.
Qed.

(** X7.  The configuration file [main] works on: in rsync mode
    [/etc/portage/repos.conf/gentoo.conf] when that file exists, for which
    [change_config] chooses the variable [sync-uri]; in every other case
    the path [get_make_conf_path] gives. *)
Theorem main_configuration_target (w : World) (argv : list string) tr tr'
    config_path options fsmirrors hosts :
  main_setup w argv tr = (tr', inr (config_path, options, fsmirrors, hosts)) ->
  gentoo_conf = "/etc/portage/repos.conf/gentoo.conf" /\
  config_path =
    (if truthy (getattr options "rsync") && access_F_OK w gentoo_conf then gentoo_conf
     else get_make_conf_path w EPREFIX) /\
  (truthy (getattr options "rsync") = true -> access_F_OK w gentoo_conf = true ->
   config_var config_path (truthy (getattr options "rsync")) = "sync-uri").
Proof.
  intros H. apply main_setup_returned in H. destruct H as [Hcp _].
  split; [reflexivity|]. split; [exact Hcp|].
  intros Hrsync Hexists. rewrite Hcp, Hrsync, Hexists. reflexivity.
Qed.

Lemma main_configuration_target_witness :
  let hosts : list (string * HostArgs) := [("rsync://a.example/gentoo-portage", [])] in
  let w := sample_world hosts [] in
  let argv := ["mirrorselect"; "-a"; "-r"; "-o"] in
  exists tr' config_path options fsmirrors,
    main_setup w argv [] = (tr', inr (config_path, options, fsmirrors, hosts)) /\
    gentoo_conf = "/etc/portage/repos.conf/gentoo.conf" /\
    config_path =
      (if truthy (getattr options "rsync") && access_F_OK w gentoo_conf then gentoo_conf
       else get_make_conf_path w EPREFIX) /\
    (truthy (getattr options "rsync") = true -> access_F_OK w gentoo_conf = true ->
     config_var config_path (truthy (getattr options "rsync")) = "sync-uri").
Proof.
  intros hosts w argv. do 4 eexists. split.
  - vm_compute. reflexivity.
  - eapply (main_configuration_target w argv []).
    vm_compute. reflexivity.
Defined.

(** X8.  With [--output], once the hosts are chosen [main] calls neither
    [write_make_conf] nor [write_repos_conf], whatever the hosts are; and
    when some host was chosen it does not return: it ends in an exception,
    [SystemExit] after printing. *)
Theorem main_output_only_never_writes (w : World) (argv : list string)
    tr tr1 tr2 config_path options fsmirrors hosts urls :
  main_setup w argv tr = (tr1, inr (config_path, options, fsmirrors, hosts)) ->
  main_urls w hosts options tr1 = (tr2, inr urls) ->
  truthy (getattr options "output") = true ->
  exists added,
    fst (main w argv tr) = (tr2 ++ added)%list /\
    forallb (fun e => negb (is_config_write e)) added = true /\
    (urls <> [] -> exists e, snd (main w argv tr) = inl e).
Proof.
  intros Hsetup Hurls Hout.
  rewrite (main_steps _ _ _ _ _ _ _ _ Hsetup).
  rewrite (bind_returns _ _ _ _ _ Hurls). unfold main_finish.
  destruct urls as [|u urls]; cbn [List.length Nat.eqb negb].
  - exists [OutputWrite no_results_message None]. repeat split. congruence.
  - rewrite Hout.
    pose proof (change_config_cases (fsmirrors ++ u :: urls) true config_path
                  (truthy (getattr options "rsync")) tr2) as Hcases.
    destruct (change_config (fsmirrors ++ u :: urls) true config_path
                (truthy (getattr options "rsync")) tr2) as [tr3 [e|[]]].
    + destruct e; try (destruct Hcases as [-> _]; exists []; rewrite app_nil_r;
                       repeat split; intros _; eexists; reflexivity).
      destruct Hcases as (_ & _ & line & ->).
      exists [Stdout EmptyString; Stdout line]. repeat split.
      intros _. eexists. reflexivity.
    + destruct Hcases as [Hfalse _]. discriminate.
Qed.

Lemma main_output_only_never_writes_witness :
  let w := sample_world [("http://a.example/", [])] [Str "http://a.example/"] in
  let argv := ["mirrorselect"; "-D"; "-o"] in
  exists tr1 tr2 config_path options fsmirrors urls,
    main_setup w argv [] =
      (tr1, inr (config_path, options, fsmirrors, [("http://a.example/", [])])) /\
    main_urls w [("http://a.example/", [])] options tr1 = (tr2, inr urls) /\
    exists added,
      fst (main w argv []) = (tr2 ++ added)%list /\
      forallb (fun e => negb (is_config_write e)) added = true /\
      (urls <> [] -> exists e, snd (main w argv []) = inl e).
Proof.
  intros w argv. do 6 eexists. split; [vm_compute; reflexivity|].
  split; [vm_compute; reflexivity|].
  eapply (main_output_only_never_writes w argv []).
  - vm_compute. reflexivity.
  - vm_compute. reflexivity.
  - reflexivity.
Defined.

(** X9.  All-mirrors mode runs no selector: with the same environment, the same
    [Extractor] and the same configuration, [main] does and returns the same
    whatever the selectors would do. *)
Theorem all_mirrors_runs_no_selector (w : World)
    (selectors : selector -> list (string * HostArgs) -> Values -> M (list pystr))
    (argv : list string) tr tr' config_path options fsmirrors hosts :
  main_setup w argv tr = (tr', inr (config_path, options, fsmirrors, hosts)) ->
  truthy (getattr options "all_mirrors") = true ->
  main (with_selectors w selectors) argv tr = main w argv tr.
Proof.
  intros Hsetup Hall.
  assert (Hsame : main_setup (with_selectors w selectors) argv tr = main_setup w argv tr)
    by reflexivity.
  rewrite (main_steps w _ _ _ _ _ _ _ Hsetup).
  rewrite <- Hsame in Hsetup.
  rewrite (main_steps (with_selectors w selectors) _ _ _ _ _ _ _ Hsetup).
  unfold main_urls. now rewrite Hall.
Qed.

Lemma all_mirrors_runs_no_selector_witness :
  let w := sample_world [("http://a.example/", [])] [] in
  let argv := ["mirrorselect"; "-a"; "-o"] in
  main (with_selectors w (fun _ _ _ => raise TypeError)) argv [] = main w argv [].
Proof.
  intros w argv.
  eapply (all_mirrors_runs_no_selector w _ argv []).
  - vm_compute. reflexivity.
  - reflexivity.
Defined.

(** ** The options [_parse_args] returns *)

Lemma getattr_setattr (values : Values) (d name : string) (v : pyval) :
  getattr (setattr values d v) name = if d =? name then v else getattr values name.
Proof.
  induction values as [|[n v0] values IH]; simpl.
  - reflexivity.
  - destruct (String.eqb_spec n d) as [->|Hnd]; simpl.
    + destruct (d =? name); reflexivity.
    + rewrite IH. destruct (String.eqb_spec n name) as [->|Hnn]; [|reflexivity].
      destruct (String.eqb_spec d name); [congruence|reflexivity].
Qed.

Lemma find_short_in_table (table : list Option_) (opt : string) (o : Option_) :
  find_short table opt = Some o -> In o table.
Proof. intros H. now apply find_some in H. Qed.

Lemma find_long_in_table (table : list Option_) (opt : string) (o : Option_) :
  find_long table opt = Some o -> In o table.
Proof. intros H. now apply find_some in H. Qed.

Lemma short_opts_of_table (table : list Option_) (letters : string) :
  Forall (item_of_table table) (fst (_process_short_opts table letters)) /\
  match snd (_process_short_opts table letters) with
  | Awaits o _ => In o table /\ takes_value o = true
  | _ => True
  end.
Proof.
  induction letters as [|ch letters IH]; cbn [_process_short_opts].
  - split; [constructor|exact I].
  - destruct (find_short table (String "-" (String ch EmptyString))) as [o|] eqn:Hfind.
    + apply find_short_in_table in Hfind.
      destruct (takes_value o) eqn:Htakes.
      * destruct letters as [|c letters]; simpl.
        -- split; [constructor|now split].
        -- split; [|exact I]. constructor; [|constructor].
           split; [exact Hfind|discriminate].
      * destruct (_process_short_opts table letters) as [items e].
        simpl in *. destruct IH as [Hitems He]. split; [|exact He].
        constructor; [|exact Hitems]. split; [exact Hfind|congruence].
    + simpl. split; [|exact I]. constructor; [exact I|constructor].
Qed.

(** Every option [lex] reports is an option of the table, and has an
    argument when it takes one. *)
Lemma lex_of_table (table : list Option_) (n : nat) :
  forall rargs, (List.length rargs <= n)%nat ->
  Forall (item_of_table table) (lex table rargs).
Proof.
  induction n as [|n IH]; intros [|arg rest] Hlen; try (constructor; fail).
  - simpl in Hlen. lia.
  - simpl in Hlen. cbn [lex].
    assert (Hrest : Forall (item_of_table table) (lex table rest))
      by (apply IH; lia).
    assert (Hrest' : forall v rest', rest = v :: rest' ->
              Forall (item_of_table table) (lex table rest'))
      by (intros v rest' ->; apply IH; simpl in Hlen; lia).
    destruct (arg =? "--"); [constructor; [exact I|constructor]|].
    destruct (prefix "--" arg).
    + destruct (split_equals EmptyString arg) as [name explicit].
      destruct (_match_long_opt table name) as [e|opt];
        [constructor; [exact I|constructor]|].
      destruct (find_long table opt) as [o|] eqn:Hfind;
        [|constructor; [exact I|constructor]].
      apply find_long_in_table in Hfind.
      destruct (takes_value o) eqn:Htakes.
      * destruct explicit as [v|].
        -- constructor; [|exact Hrest]. split; [exact Hfind|discriminate].
        -- destruct rest as [|v rest']; [constructor; [exact I|constructor]|].
           constructor; [|now apply (Hrest' v)]. split; [exact Hfind|discriminate].
      * destruct explicit as [v|]; [constructor; [exact I|constructor]|].
        constructor; [|exact Hrest]. split; [exact Hfind|congruence].
    + destruct (prefix "-" arg && (1 <? String.length arg)%nat).
      * pose proof (short_opts_of_table table (drop 1 arg)) as [Hitems He].
        destruct (_process_short_opts table (drop 1 arg)) as [items e].
        simpl in Hitems, He.
        destruct e as [|o opt|].
        -- apply Forall_app. now split.
        -- destruct rest as [|v rest'].
           ++ apply Forall_app. split; [exact Hitems|].
              constructor; [exact I|constructor].
           ++ apply Forall_app. split; [exact Hitems|].
              constructor; [|now apply (Hrest' v)].
              split; [tauto|discriminate].
        -- exact Hitems.
      * constructor; [exact I|exact Hrest].
Qed.

Lemma process_returned (o : Option_) (opt : string) (value : option string)
    (values values' : Values) tr tr' :
  process o opt value values tr = (tr', inr values') ->
  tr' = tr /\
  exists stored,
    match value with
    | None => stored = PyNone
    | Some text => check_value o text = Some stored
    end /\
    match action o, option_dest o with
    | help, _ | version, _ => False
    | store, Some d => values' = setattr values d stored
    | store_true, Some d => values' = setattr values d (PyBool true)
    | store_const, Some d => values' = setattr values d (const o)
    | _, None => values' = values
    end.
Proof.
  unfold process. intros H.
  apply bind_returned in H. destruct H as (stored & tr1 & Hconv & H).
  assert (Hstored : tr1 = tr /\
            match value with
            | None => stored = PyNone
            | Some text => check_value o text = Some stored
            end).
  { destruct value as [text|].
    - destruct (check_value o text) as [v|].
      + unfold ret in Hconv. inversion Hconv. now subst.
      + unfold parser_error, bind, emit, sys_exit, raise in Hconv. discriminate.
    - unfold ret in Hconv. now inversion Hconv. }
  destruct Hstored as [-> Hstored].
  destruct (action o), (option_dest o) as [d|];
    unfold ret, bind, emit, sys_exit, raise in H; inversion H; subst;
    (split; [reflexivity|]); exists stored; (split; [exact Hstored|reflexivity]).
Qed.

Lemma options_typed_defaults :
  exists defaults,
    get_default_values mirrorselect_options = Some defaults /\
    options_typed defaults = true.
Proof. eexists. split; [vm_compute; reflexivity|reflexivity]. Qed.

Ltac typed_after_setattr Htyped :=
  unfold options_typed in *; cbn [forallb] in *; rewrite ?getattr_setattr;
  simpl in *; repeat rewrite andb_true_iff in *; intuition.

Lemma process_typed (o : Option_) (opt : string) (value : option string)
    (values values' : Values) tr tr' :
  In o mirrorselect_options ->
  (takes_value o = true -> value <> None) ->
  options_typed values = true ->
  process o opt value values tr = (tr', inr values') ->
  options_typed values' = true.
Proof.
  intros Hin Hvalue Htyped Hrun.
  apply process_returned in Hrun. destruct Hrun as (_ & stored & Hstored & Hset).
  simpl in Hin.
  repeat (destruct Hin as [<-|Hin]); try contradiction;
    cbv [flag action option_dest dest long_opts short_opts opt_strings filter is_long
         prefix negb] in Hset;
    simpl in Hset; try contradiction; subst values';
    try (typed_after_setattr Htyped; fail).
  all: destruct value as [text|]; [|exfalso; apply Hvalue; reflexivity].
  all: cbv [check_value option_type action type] in Hstored.
  all: try (destruct (_parse_int text) as [z|]; [|discriminate]).
  all: inversion Hstored; subst stored; typed_after_setattr Htyped.
Qed.

Lemma run_items_returned (items : list item) :
  forall (values values' : Values) (largs largs' : list string) tr tr',
  run_items items values largs tr = (tr', inr (values', largs')) -> tr' = tr.
Proof.
  induction items as [|it items IH]; simpl; intros values values' largs largs' tr tr' H.
  - unfold ret in H. now inversion H.
  - destruct it as [o opt value|arg|rest|e].
    + apply bind_returned in H. destruct H as (values1 & tr1 & Hp & H).
      apply process_returned in Hp. destruct Hp as [-> _]. eapply IH, H.
    + eapply IH, H.
    + unfold ret in H. now inversion H.
    + unfold parser_error, bind, emit, sys_exit, raise in H. discriminate.
Qed.

Lemma run_items_typed (items : list item) :
  Forall (item_of_table mirrorselect_options) items ->
  forall (values values' : Values) (largs largs' : list string) tr tr',
  options_typed values = true ->
  run_items items values largs tr = (tr', inr (values', largs')) ->
  options_typed values' = true.
Proof.
  induction 1 as [|it items Hit Hitems IH];
    intros values values' largs largs' tr tr' Htyped H; cbn [run_items] in H.
  - unfold ret in H. inversion H; subst. exact Htyped.
  - destruct it as [o opt value|arg|rest|e].
    + apply bind_returned in H. destruct H as (values1 & tr1 & Hp & H).
      destruct Hit as [Hin Hvalue].
      eapply IH; [|exact H]. eapply process_typed; eassumption.
    + eapply IH; eassumption.
    + unfold ret in H. inversion H; subst. exact Htyped.
    + unfold parser_error, bind, emit, sys_exit, raise in H. discriminate.
Qed.

Lemma parse_args_typed (args : list string) (values : Values) (largs : list string)
    tr tr' :
  parse_args mirrorselect_options args tr = (tr', inr (values, largs)) ->
  options_typed values = true /\ tr' = tr.
Proof.
  unfold parse_args. intros H.
  destruct options_typed_defaults as (defaults & Hdef & Htyped).
  rewrite Hdef in H. split.
  - eapply run_items_typed; [|exact Htyped|exact H].
    apply (lex_of_table _ (List.length args)). lia.
  - eapply run_items_returned, H.
Qed.

(** The condition under which [_parse_args] resets [ipv6]
    (main.py, line 248). *)
Lemma _parse_args_returned_exactly (w : World) (argv : list string)
    (config_path : string) tr tr' options :
  _parse_args w argv config_path tr = (tr', inr options) ->
  exists values args,
    parse_args mirrorselect_options (tl argv) tr = (tr, inr (values, args)) /\
    options =
      (if (truthy (getattr values "ipv6") && negb (has_ipv6 w))
          && negb (truthy (getattr values "interactive"))
       then setattr values "ipv6" (PyBool false) else values).
Proof.
  unfold _parse_args. intros H.
  apply bind_returned in H. destruct H as (u0 & tr0 & Hhelp & H).
  assert (tr0 = tr) as ->.
  { unfold when in Hhelp. destruct (List.length argv =? 1)%nat.
    - unfold bind, emit, sys_exit, raise in Hhelp. discriminate Hhelp.
    - unfold ret in Hhelp. now inversion Hhelp. }
  apply bind_returned in H. destruct H as ([values args] & tr1 & Hparse & H).
  pose proof (parse_args_typed _ _ _ _ _ Hparse) as [_ ->].
  exists values, args. split; [exact Hparse|].
  apply bind_returned in H. destruct H as (u1 & tr2 & _ & H).
  apply bind_returned in H. destruct H as (u2 & tr3 & _ & H).
  apply bind_returned in H. destruct H as (options1 & tr4 & Hipv6 & H).
  assert (Hopt : options1 =
            (if (truthy (getattr values "ipv6") && negb (has_ipv6 w))
                && negb (truthy (getattr values "interactive"))
             then setattr values "ipv6" (PyBool false) else values)).
  { destruct ((truthy (getattr values "ipv6") && negb (has_ipv6 w))
              && negb (truthy (getattr values "interactive"))).
    - apply bind_returned in Hipv6. destruct Hipv6 as (u3 & tr5 & _ & Hret).
      unfold ret in Hret. now inversion Hret.
    - unfold ret in Hipv6. now inversion Hipv6. }
  repeat (apply bind_returned in H; destruct H as (? & ? & _ & H)).
  unfold ret in H. inversion H. now subst.
Qed.

(** X10.  Whatever the command line, the options [_parse_args] returns hold
    values of the types the program reads them at: a boolean for every
    flag, text or [None] for [country] and [region], an integer or [None]
    for [blocksize], integers for [timeout] and [servers], and 0, 1 or 2
    for [verbosity]. *)
Theorem _parse_args_options_typed (w : World) (argv : list string)
    (config_path : string) (tr tr' : list event) (options : Values) :
  _parse_args w argv config_path tr = (tr', inr options) ->
  options_typed options = true.
Proof.
  intros H. apply _parse_args_returned_exactly in H.
  destruct H as (values & args & Hparse & ->).
  apply parse_args_typed in Hparse. destruct Hparse as [Htyped _].
  destruct ((truthy (getattr values "ipv6") && negb (has_ipv6 w))
            && negb (truthy (getattr values "interactive"))); [|exact Htyped].
  clear - Htyped.
  unfold options_typed in *; cbn [forallb] in *; rewrite ?getattr_setattr;
    simpl in *; repeat rewrite andb_true_iff in *; intuition.
Qed.

Lemma _parse_args_options_typed_witness :
  exists tr' options,
    _parse_args (sample_world [] []) ["mirrorselect"; "-qd"; "-b"; "0x10"; "-cNorway"]
      "/etc/portage/make.conf" [] = (tr', inr options) /\
    options_typed options = true.
Proof.
  do 2 eexists. split.
  - vm_compute. reflexivity.
  - eapply (_parse_args_options_typed (sample_world [] [])
              ["mirrorselect"; "-qd"; "-b"; "0x10"; "-cNorway"]
              "/etc/portage/make.conf" []).
    vm_compute. reflexivity.
Defined.

(** X11.  On a machine without IPv6 the options [_parse_args] returns never ask
    for IPv6, interactive mode apart: a request made on the command line
    is withdrawn. *)
Theorem _parse_args_withdraws_ipv6 (w : World) (argv : list string)
    (config_path : string) (tr tr' : list event) (options : Values) :
  _parse_args w argv config_path tr = (tr', inr options) ->
  has_ipv6 w = false ->
  truthy (getattr options "interactive") = false ->
  truthy (getattr options "ipv6") = false.
Proof.
  intros H Hno Hinter. apply _parse_args_returned_exactly in H.
  destruct H as (values & args & _ & ->). rewrite Hno in *.
  destruct ((truthy (getattr values "ipv6") && negb false)
            && negb (truthy (getattr values "interactive"))) eqn:Hcond.
  - now rewrite getattr_setattr.
  - rewrite Hinter in Hcond. now destruct (truthy (getattr values "ipv6")).
Qed.

Lemma _parse_args_withdraws_ipv6_witness :
  let w := mkWorld false 0%Z None (Some "/usr/bin") (String.eqb "/usr/bin/netselect")
             (fun _ => true) (fun _ => false) "distfiles.xml" "rsync.xml"
             (fun message => emit (OutputWrite message None))
             (fun _ _ => ret []) (fun _ _ _ => ret [])
             (fun _ => "/etc/portage/make.conf") (fun _ _ => ret []) in
  exists tr' options,
    _parse_args w ["mirrorselect"; "-6"] "/etc/portage/make.conf" [] =
      (tr', inr options) /\
    truthy (getattr options "ipv6") = false.
Proof.
  intros w. do 2 eexists. split.
  - vm_compute. reflexivity.
  - eapply (_parse_args_withdraws_ipv6 w ["mirrorselect"; "-6"]
              "/etc/portage/make.conf" []).
    + vm_compute. reflexivity.
    + reflexivity.
    + reflexivity.
Defined.

Lemma when_print_err_returned (w : World) (cond : bool) (message : string) tr tr' u :
  print_err_aborts w ->
  when cond (print_err w message) tr = (tr', inr u) ->
  cond = false /\ tr' = tr.
Proof.
  intros Haborts H. unfold when in H. destruct cond.
  - destruct (Haborts message tr) as (tr1 & e & He). rewrite He in H. discriminate H.
  - unfold ret in H. now inversion H.
Qed.

(** X12.  Where [print_err] ends the run, a [_parse_args] that returns has
    printed nothing, returns the options exactly as the parser stored them,
    and these pass every sanity check: at most one of [-H], [-F] and [-r];
    not both [-4] and [-6]; IPv6 only with support for it or with [-i];
    [-r] only with [-i] or [-a]; [-i] without [-D], [-b] and [-s] above 1;
    netselect installed unless [-D]; root unless [-o]; no argument left
    over. *)
Theorem _parse_args_accepts_only_sane (w : World) (argv : list string)
    (config_path : string) (tr tr' : list event) (options : Values) :
  print_err_aborts w ->
  _parse_args w argv config_path tr = (tr', inr options) ->
  tr' = tr /\
  exists args,
    parse_args mirrorselect_options (tl argv) tr = (tr, inr (options, args)) /\
    options_sane w options args = true.
Proof.
  intros Haborts H. unfold _parse_args in H.
  apply bind_returned in H. destruct H as (u0 & tr0 & Hhelp & H).
  assert (tr0 = tr) as ->.
  { unfold when in Hhelp. destruct (List.length argv =? 1)%nat.
    - unfold bind, emit, sys_exit, raise in Hhelp. discriminate Hhelp.
    - unfold ret in Hhelp. now inversion Hhelp. }
  apply bind_returned in H. destruct H as ([values args] & tr1 & Hparse & H).
  pose proof (parse_args_typed _ _ _ _ _ Hparse) as [_ ->].
  apply bind_returned in H. destruct H as (u1 & tr2 & H1 & H).
  apply when_print_err_returned in H1; [|exact Haborts]. destruct H1 as [C1 ->].
  apply bind_returned in H. destruct H as (u2 & tr3 & H2 & H).
  apply when_print_err_returned in H2; [|exact Haborts]. destruct H2 as [C2 ->].
  apply bind_returned in H. destruct H as (options1 & tr4 & Hipv6 & H).
  destruct ((truthy (getattr values "ipv6") && negb (has_ipv6 w))
            && negb (truthy (getattr values "interactive"))) eqn:C3.
  { apply bind_returned in Hipv6. destruct Hipv6 as (u3 & tr5 & Herr & _).
    destruct (Haborts "The --ipv6 option requires python ipv6 support" tr)
      as (tr6 & e & He).
    rewrite He in Herr. discriminate Herr. }
  unfold ret in Hipv6. inversion Hipv6; subst options1 tr4. clear Hipv6.
  apply bind_returned in H. destruct H as (u4 & tr5 & H4 & H).
  apply when_print_err_returned in H4; [|exact Haborts]. destruct H4 as [C4 ->].
  apply bind_returned in H. destruct H as (u5 & tr6 & H5 & H).
  apply when_print_err_returned in H5; [|exact Haborts]. destruct H5 as [C5 ->].
  apply bind_returned in H. destruct H as (u6 & tr7 & H6 & H).
  apply when_print_err_returned in H6; [|exact Haborts]. destruct H6 as [C6 ->].
  apply bind_returned in H. destruct H as (u7 & tr8 & H7 & H).
  apply when_print_err_returned in H7; [|exact Haborts]. destruct H7 as [C7 ->].
  apply bind_returned in H. destruct H as (u8 & tr9 & H8 & H).
  apply when_print_err_returned in H8; [|exact Haborts]. destruct H8 as [C8 ->].
  unfold ret in H. inversion H; subst.
  split; [reflexivity|]. exists args. split; [exact Hparse|].
  unfold options_sane. rewrite C2, C3, C4, C5.
  assert (S1 : (int_of (getattr options "http") + int_of (getattr options "ftp")
                + int_of (getattr options "rsync") <=? 1)%Z = true).
  { apply Z.leb_le. rewrite Z.gtb_ltb in C1. apply Z.ltb_ge in C1. exact C1. }
  rewrite S1.
  assert (S6 : truthy (getattr options "deep")
               || match _have_bin w "netselect" with Some _ => true | None => false end
               = true).
  { destruct (truthy (getattr options "deep")); [reflexivity|].
    now destruct (_have_bin w "netselect"). }
  rewrite S6.
  assert (S7 : (getuid w =? rootuid w)%Z || truthy (getattr options "output") = true).
  { destruct (getuid w =? rootuid w)%Z; [reflexivity|].
    now destruct (truthy (getattr options "output")). }
  rewrite S7.
  now destruct args.
Qed.

Lemma _parse_args_accepts_only_sane_witness :
  let w := sample_world [] [] in
  let argv := ["mirrorselect"; "-D"; "-s"; "3"] in
  exists tr' options,
    _parse_args w argv "/etc/portage/make.conf" [] = (tr', inr options) /\
    tr' = [] /\
    exists args,
      parse_args mirrorselect_options (tl argv) [] = ([], inr (options, args)) /\
      options_sane w options args = true.
Proof.
  intros w argv. do 2 eexists. split; [vm_compute; reflexivity|].
  eapply (_parse_args_accepts_only_sane w argv "/etc/portage/make.conf" []).
  - intros message tr. eexists. eexists. reflexivity.
  - vm_compute. reflexivity.
Defined.

(** ** [main]: the configuration it writes *)

(** X17.  Without [--output], when hosts were chosen and the hosts are well
    formed, [main] returns after one configuration write, and what it
    writes is the mirrors the configuration already held followed by the
    chosen hosts, in that order, separated by single spaces. *)
Theorem main_writes_old_then_chosen (w : World) (argv : list string)
    tr tr1 tr2 config_path options fsmirrors hosts urls :
  main_setup w argv tr = (tr1, inr (config_path, options, fsmirrors, hosts)) ->
  main_urls w hosts options tr1 = (tr2, inr urls) ->
  urls <> [] ->
  host_list (fsmirrors ++ urls) = true ->
  truthy (getattr options "output") = false ->
  let joined := join " " (map host_text fsmirrors ++ map host_text urls) in
  let sync := truthy (getattr options "rsync") in
  let var := if sync then "SYNC" else "GENTOO_MIRRORS" in
  main w argv tr =
    ((tr2 ++ [if sync && contains "repos.conf" config_path
              then WriteReposConf config_path "sync-uri" joined
              else WriteMakeConf config_path var
                     (var ++ "=" ++ dquote ++ joined ++ dquote)])%list,
     inr tt).
Proof.
  intros Hsetup Hurls Hne Hwf Hout joined sync var.
  rewrite (main_steps _ _ _ _ _ _ _ _ Hsetup).
  rewrite (bind_returns _ _ _ _ _ Hurls). unfold main_finish.
  destruct urls as [|u urls]; [congruence|]. cbn [List.length Nat.eqb negb].
  rewrite Hout.
  rewrite change_config_well_formed; [|now destruct fsmirrors|exact Hwf].
  unfold joined, var, sync, config_var. rewrite map_app. cbv zeta.
  rewrite andb_false_r.
  destruct (truthy (getattr options "rsync"));
    [destruct (contains "repos.conf" config_path)|]; reflexivity.
Qed.

Lemma main_writes_old_then_chosen_witness :
  let w := mkWorld true 0%Z None (Some "/usr/bin") (String.eqb "/usr/bin/netselect")
             (fun _ => true) (fun _ => false) "distfiles.xml" "rsync.xml"
             (fun message => emit (OutputWrite message None) ;;; sys_exit 1)
             (fun _ _ => ret [("http://a.example/", []); ("http://b.example/", [])])
             (fun _ _ _ => ret [Str "http://b.example/"])
             (fun _ => "/etc/portage/make.conf")
             (fun _ _ => ret [Str "/mnt/distfiles"]) in
  exists tr2,
    main w ["mirrorselect"; "-s1"] [] =
    ((tr2 ++ [WriteMakeConf "/etc/portage/make.conf" "GENTOO_MIRRORS"
                ("GENTOO_MIRRORS=" ++ dquote ++ "/mnt/distfiles http://b.example/"
                 ++ dquote)])%list,
     inr tt).
Proof.
  intros w. eexists.
  etransitivity.
  - eapply (main_writes_old_then_chosen w ["mirrorselect"; "-s1"] []).
    + vm_compute. reflexivity.
    + vm_compute. reflexivity.
    + discriminate.
    + reflexivity.
    + reflexivity.
  - f_equal.
Defined.

(** ** [setup.py]: [set_version] *)

Lemma split_at_app (n : nat) :
  forall s a b, split_at n s = (a, b) -> s = a ++ b.
Proof.
  induction n as [|n IH]; intros s a b H.
  - destruct s; simpl in H; inversion H; reflexivity.
  - destruct s as [|c s]; simpl in H.
    + inversion H; reflexivity.
    + destruct (split_at n s) as [a' b'] eqn:Hs. inversion H; subst.
      simpl. f_equal. now apply IH.
Qed.

(** When bytes are left over, the split took all it was asked for. *)
Lemma split_at_full (n : nat) :
  forall s a b, split_at n s = (a, b) -> b <> EmptyString ->
  forall x, split_at n (a ++ x) = (a, x).
Proof.
  induction n as [|n IH]; intros s a b H Hb x.
  - destruct s; simpl in H; inversion H; subst; destruct x; reflexivity.
  - destruct s as [|c s]; simpl in H.
    + inversion H; subst. contradiction.
    + destruct (split_at n s) as [a' b'] eqn:Hs. inversion H; subst.
      simpl. now rewrite (IH _ _ _ Hs Hb x).
Qed.

Lemma match_atom_split (a : atom) (line char rest : string) :
  match_atom a line = Some (char, rest) ->
  line = char ++ rest /\
  (rest <> EmptyString -> forall x, match_atom a (char ++ x) = Some (char, x)).
Proof.
  destruct line as [|c line]; simpl; [discriminate|].
  destruct a as [d|].
  - destruct (Ascii.eqb c d) eqn:Hc; [|discriminate].
    intros H. inversion H; subst. split; [reflexivity|].
    intros _ x. simpl. now rewrite Hc.
  - destruct (Ascii.eqb c (ascii_of_nat 10)) eqn:Hc; [discriminate|].
    destruct (split_at (continuation_bytes c) line) as [more rest'] eqn:Hs.
    intros H. inversion H; subst. split.
    + simpl. f_equal. now apply split_at_app with (continuation_bytes c).
    + intros Hrest x. simpl. rewrite Hc.
      now rewrite (split_at_full _ _ _ _ Hs Hrest x).
Qed.

Lemma append_empty (a b : string) : a ++ b = EmptyString -> b = EmptyString.
Proof. destruct a; simpl; [auto|discriminate]. Qed.

Lemma append_assoc (a b c : string) : (a ++ b) ++ c = a ++ b ++ c.
Proof. induction a as [|x a IH]; simpl; [reflexivity|now rewrite IH]. Qed.

Lemma append_nil_r (a : string) : a ++ EmptyString = a.
Proof. induction a as [|x a IH]; simpl; [reflexivity|now rewrite IH]. Qed.

(** What the lookbehind returns splits the line, and it matches the same
    text whatever follows it. *)
Lemma lookbehind_split (p : list atom) :
  forall line pre rest,
  lookbehind p line = Some (pre, rest) ->
  line = pre ++ rest /\
  (rest <> EmptyString -> forall x, lookbehind p (pre ++ x) = Some (pre, x)).
Proof.
  induction p as [|a p IH]; intros line pre rest H; simpl in H.
  - inversion H; subst. split; [reflexivity|]. intros _ x. reflexivity.
  - destruct (match_atom a line) as [[char line']|] eqn:Ha; [|discriminate].
    destruct (lookbehind p line') as [[pre' rest0]|] eqn:Hp; [|discriminate].
    inversion H; subst.
    destruct (match_atom_split _ _ _ _ Ha) as [-> Hchar].
    destruct (IH _ _ _ Hp) as [-> Hsame].
    split; [now rewrite append_assoc|].
    intros Hrest x. simpl. rewrite append_assoc.
    rewrite Hchar.
    + now rewrite (Hsame Hrest x).
    + intros Hempty. apply append_empty in Hempty. contradiction.
Qed.

Lemma up_to_quote_split (s run tail : string) :
  up_to_quote s = Some (run, tail) ->
  exists body q,
    run = body ++ String q EmptyString /\ s = body ++ String q tail /\
    is_quote q = true /\ quote_free body = true.
Proof.
  revert run. induction s as [|c s IH]; simpl; intros run H; [discriminate|].
  destruct (is_quote c) eqn:Hc.
  - inversion H; subst. now exists EmptyString, c.
  - destruct (up_to_quote s) as [[run' tail']|]; [|discriminate].
    inversion H; subst.
    destruct (IH run' eq_refl) as (body & q & -> & -> & Hq & Hfree).
    exists (String c body), q. simpl. now rewrite Hc.
Qed.

Lemma up_to_quote_skips (body tail : string) (q : ascii) :
  quote_free body = true -> is_quote q = true ->
  up_to_quote (body ++ String q tail) = Some (body ++ String q EmptyString, tail).
Proof.
  intros Hfree Hq. induction body as [|c body IH]; simpl.
  - now rewrite Hq.
  - simpl in Hfree. apply andb_prop in Hfree. destruct Hfree as [Hc Hfree].
    apply negb_true_iff in Hc. rewrite Hc. now rewrite IH.
Qed.

(** A line the pattern matches is rewritten. *)
Lemma re_sub_matched (p : list atom) (expand : string -> string)
    (line pre body tail : string) (q q' : ascii) :
  lookbehind p line = Some (pre, String q (body ++ String q' tail)) ->
  is_quote q = true -> is_quote q' = true -> quote_free body = true ->
  re_sub p expand line =
    pre ++ expand (String q (body ++ String q' EmptyString)) ++ tail.
Proof.
  intros Hp Hq Hq' Hfree. unfold re_sub. rewrite Hp, Hq.
  now rewrite up_to_quote_skips.
Qed.

(** What [re_sub] does to a line, in full. *)
Lemma re_sub_cases (p : list atom) (expand : string -> string) (line : string) :
  re_sub p expand line = line \/
  exists pre q body q' tail,
    line = pre ++ String q (body ++ String q' tail) /\
    lookbehind p line = Some (pre, String q (body ++ String q' tail)) /\
    is_quote q = true /\ is_quote q' = true /\ quote_free body = true /\
    re_sub p expand line =
      pre ++ expand (String q (body ++ String q' EmptyString)) ++ tail.
Proof.
  unfold re_sub.
  destruct (lookbehind p line) as [[pre rest]|] eqn:Hp; [|now left].
  destruct rest as [|q rest]; [now left|].
  destruct (is_quote q) eqn:Hq; [|now left].
  destruct (up_to_quote rest) as [[run tail]|] eqn:Htail; [|now left].
  right. apply up_to_quote_split in Htail.
  destruct Htail as (body & q' & -> & -> & Hq' & Hfree).
  exists pre, q, body, q', tail.
  destruct (lookbehind_split _ _ _ _ Hp) as (Hline & _).
  repeat split; assumption.
Qed.

Lemma contains_char (c d : ascii) (s : string) :
  contains (String c EmptyString) (String d s) =
  Ascii.eqb c d || contains (String c EmptyString) s.
Proof.
  cbn [contains prefix].
  destruct (ascii_dec c d) as [->|Hne].
  - rewrite Ascii.eqb_refl. now destruct s.
  - apply Ascii.eqb_neq in Hne. now rewrite Hne.
Qed.

Lemma contains_char_app (c : ascii) (a b : string) :
  contains (String c EmptyString) (a ++ b) =
  contains (String c EmptyString) a || contains (String c EmptyString) b.
Proof.
  induction a as [|d a IH].
  - simpl. reflexivity.
  - cbn [append]. rewrite !contains_char, IH. now rewrite orb_assoc.
Qed.

(** A replacement without backslash stands for itself. *)
Lemma compile_repl_plain (parse_template : string -> option (string -> string))
    (ver : string) :
  contains (String (ascii_of_nat 92) EmptyString) ver = false ->
  compile_repl parse_template (dquote ++ ver ++ dquote) =
    Some (fun _ => dquote ++ ver ++ dquote).
Proof.
  intros Hver. unfold compile_repl.
  rewrite !contains_char_app, Hver. reflexivity.
Qed.



(** Substituting twice is substituting once, for a version without
    quotes. *)
Lemma re_sub_settles (p : list atom) (ver line : string) :
  quote_free ver = true ->
  re_sub p (fun _ => dquote ++ ver ++ dquote)
    (re_sub p (fun _ => dquote ++ ver ++ dquote) line) =
  re_sub p (fun _ => dquote ++ ver ++ dquote) line.
Proof.
  intros Hver.
  destruct (re_sub_cases p (fun _ => dquote ++ ver ++ dquote) line) as [H|H];
    [now rewrite H|].
  destruct H as (pre & q & body & q' & tail & Hline & Hp & Hq & Hq' & Hfree & Hsub).
  rewrite Hsub.
  destruct (lookbehind_split _ _ _ _ Hp) as (_ & Hsame).
  set (new := pre ++ (dquote ++ ver ++ dquote) ++ tail).
  assert (Hnew : new = pre ++ String (ascii_of_nat 34) (ver ++ String (ascii_of_nat 34) tail)).
  { unfold new, dquote. cbn [append]. now rewrite append_assoc. }
  rewrite (re_sub_matched p _ new pre ver tail (ascii_of_nat 34) (ascii_of_nat 34));
    try reflexivity; try assumption.
  rewrite Hnew. apply Hsame. discriminate.
Qed.

(** *** Lines and files *)

Lemma is_line_not_empty (s : string) : is_line s = true -> s <> EmptyString.
Proof. destruct s; [discriminate|discriminate]. Qed.

(** The lines a file gives are the lines of one file. *)
Lemma lines_from_file_lines (content : string) :
  forall after_cr, file_lines (lines_from after_cr content) = true.
Proof.
  induction content as [|c rest IH]; intros after_cr; [reflexivity|].
  cbn [lines_from].
  destruct (Ascii.eqb c (ascii_of_nat 10)) eqn:Hlf.
  - destruct after_cr; [apply IH|].
    cbn [file_lines]. rewrite IH.
    change (is_line nl) with true. change (endswith (ascii_of_nat 10) nl) with true.
    now destruct (lines_from false rest).
  - destruct (Ascii.eqb c (ascii_of_nat 13)) eqn:Hcr.
    + cbn [file_lines]. rewrite IH.
      change (is_line nl) with true. change (endswith (ascii_of_nat 10) nl) with true.
      now destruct (lines_from true rest).
    + specialize (IH false).
      destruct (lines_from false rest) as [|line lines].
      * cbn [file_lines is_line]. now rewrite Hlf, Hcr.
      * cbn [file_lines] in *.
        apply andb_prop in IH. destruct IH as [IH Hrest].
        apply andb_prop in IH. destruct IH as [Hline Hend].
        rewrite Hrest, andb_true_r.
        assert (Hne : line <> EmptyString) by now apply is_line_not_empty.
        apply andb_true_intro. split.
        -- cbn [is_line]. rewrite Hlf, Hcr. destruct line; [contradiction|exact Hline].
        -- destruct lines; [reflexivity|].
           cbn [endswith]. destruct line; [contradiction|exact Hend].
Qed.

Lemma lines_from_line_feed (line rest : string) :
  is_line line = true -> endswith (ascii_of_nat 10) line = true ->
  lines_from false (line ++ rest) = line :: lines_from false rest.
Proof.
  induction line as [|c line IH]; [discriminate|].
  intros Hline Hend. cbn [append lines_from]. cbn [is_line] in Hline.
  destruct (Ascii.eqb c (ascii_of_nat 10)) eqn:Hlf.
  - apply String.eqb_eq in Hline. subst line. simpl.
    apply Ascii.eqb_eq in Hlf. now subst c.
  - apply andb_prop in Hline. destruct Hline as [Hcr Hline].
    apply negb_true_iff in Hcr. rewrite Hcr.
    destruct line as [|d line].
    + simpl in Hend. congruence.
    + rewrite IH; [reflexivity|exact Hline|exact Hend].
Qed.

Lemma lines_from_last_line (line : string) :
  is_line line = true -> lines_from false line = [line].
Proof.
  induction line as [|c line IH]; [discriminate|].
  intros Hline. cbn [lines_from]. cbn [is_line] in Hline.
  destruct (Ascii.eqb c (ascii_of_nat 10)) eqn:Hlf.
  - apply String.eqb_eq in Hline. subst line. simpl.
    apply Ascii.eqb_eq in Hlf. now subst c.
  - apply andb_prop in Hline. destruct Hline as [Hcr Hline].
    apply negb_true_iff in Hcr. rewrite Hcr.
    destruct line as [|d line]; [reflexivity|].
    now rewrite IH.
Qed.

(** Written and read again, the lines of a file are the same lines. *)
Lemma text_lines_writelines (lines : list string) :
  file_lines lines = true -> text_lines (writelines lines) = lines.
Proof.
  unfold text_lines.
  induction lines as [|line rest IH]; [reflexivity|].
  cbn [file_lines writelines]. intros H.
  apply andb_prop in H. destruct H as [H Hrest].
  apply andb_prop in H. destruct H as [Hline Hend].
  destruct rest as [|next rest].
  - cbn [writelines]. rewrite append_nil_r. now apply lines_from_last_line.
  - rewrite lines_from_line_feed by assumption. f_equal. now apply IH.
Qed.

Lemma file_lines_map (f : string -> string) (lines : list string) :
  (forall line, is_line line = true ->
     is_line (f line) = true /\
     endswith (ascii_of_nat 10) (f line) = endswith (ascii_of_nat 10) line) ->
  file_lines lines = true -> file_lines (map f lines) = true.
Proof.
  intros Hf. induction lines as [|line rest IH]; [reflexivity|].
  cbn [file_lines map]. intros H.
  apply andb_prop in H. destruct H as [H Hrest].
  apply andb_prop in H. destruct H as [Hline Hend].
  destruct (Hf line Hline) as [Hline' Hend'].
  rewrite Hline', (IH Hrest), andb_true_r. cbn [andb].
  destruct rest; [reflexivity|]. cbn [map]. now rewrite Hend'.
Qed.

Lemma no_line_end_app (a b : string) :
  no_line_end (a ++ b) = no_line_end a && no_line_end b.
Proof.
  induction a as [|c a IH]; [reflexivity|].
  cbn [append no_line_end]. rewrite IH. now rewrite andb_assoc.
Qed.

Lemma is_line_suffix (a s : string) :
  is_line (a ++ s) = true -> s <> EmptyString ->
  no_line_end a = true /\ is_line s = true.
Proof.
  intros H Hs. induction a as [|c a IH]; [now split|].
  cbn [append is_line] in H. cbn [no_line_end].
  destruct (Ascii.eqb c (ascii_of_nat 10)) eqn:Hlf.
  - apply String.eqb_eq in H. apply append_empty in H. contradiction.
  - apply andb_prop in H. destruct H as [Hcr H]. rewrite Hcr. cbn [negb andb].
    destruct (a ++ s) eqn:Has.
    + apply append_empty in Has. contradiction.
    + now apply IH.
Qed.

Lemma is_line_prefix (a s : string) :
  no_line_end a = true -> is_line s = true -> is_line (a ++ s) = true.
Proof.
  intros Ha Hs. induction a as [|c a IH]; [exact Hs|].
  cbn [no_line_end] in Ha. apply andb_prop in Ha. destruct Ha as [Hc Ha].
  apply andb_prop in Hc. destruct Hc as [Hlf Hcr].
  cbn [append is_line]. apply negb_true_iff in Hlf. rewrite Hlf, Hcr. cbn [andb].
  specialize (IH Ha). destruct (a ++ s); [discriminate|exact IH].
Qed.

Lemma no_line_end_is_line (a : string) :
  no_line_end a = true -> a <> EmptyString -> is_line a = true.
Proof.
  induction a as [|c a IH]; [contradiction|].
  intros Ha _. cbn [no_line_end] in Ha.
  apply andb_prop in Ha. destruct Ha as [Hc Ha].
  apply andb_prop in Hc. destruct Hc as [Hlf Hcr].
  cbn [is_line]. apply negb_true_iff in Hlf. rewrite Hlf, Hcr. cbn [andb].
  destruct a; [reflexivity|]. apply IH; [exact Ha|discriminate].
Qed.

Lemma endswith_suffix (c : ascii) (a s : string) :
  s <> EmptyString -> endswith c (a ++ s) = endswith c s.
Proof.
  intros Hs. induction a as [|d a IH]; [reflexivity|].
  cbn [append endswith]. destruct (a ++ s) eqn:Has.
  - apply append_empty in Has. contradiction.
  - exact IH.
Qed.

Lemma no_line_end_endswith (s : string) :
  no_line_end s = true -> endswith (ascii_of_nat 10) s = false.
Proof.
  induction s as [|c s IH]; [reflexivity|].
  cbn [no_line_end]. intros H.
  apply andb_prop in H. destruct H as [Hc Hs].
  apply andb_prop in Hc. destruct Hc as [Hlf _]. apply negb_true_iff in Hlf.
  cbn [endswith]. destruct s; [exact Hlf|now apply IH].
Qed.

Lemma is_quote_no_line_end (q : ascii) :
  is_quote q = true ->
  Ascii.eqb q (ascii_of_nat 10) = false /\ Ascii.eqb q (ascii_of_nat 13) = false.
Proof.
  unfold is_quote. intros H. apply orb_prop in H.
  destruct H as [H|H]; apply Ascii.eqb_eq in H; subst q; split; reflexivity.
Qed.

(** Substituting a text without line end keeps a line a line, with or
    without its line feed as before. *)
Lemma re_sub_keeps_line (p : list atom) (repl line : string) :
  no_line_end repl = true -> repl <> EmptyString ->
  is_line line = true ->
  is_line (re_sub p (fun _ => repl) line) = true /\
  endswith (ascii_of_nat 10) (re_sub p (fun _ => repl) line) =
    endswith (ascii_of_nat 10) line.
Proof.
  intros Hrepl Hne Hline.
  destruct (re_sub_cases p (fun _ => repl) line) as [H|H]; [now rewrite H|].
  destruct H as (pre & q & body & q' & tail & Hsplit & _ & _ & Hq' & _ & Hsub).
  rewrite Hsub. rewrite Hsplit in Hline.
  apply is_line_suffix in Hline; [|discriminate]. destruct Hline as [Hpre Hrest].
  change (String q (body ++ String q' tail))
    with (String q body ++ String q' tail) in Hrest.
  apply is_line_suffix in Hrest; [|discriminate]. destruct Hrest as [_ Hlast].
  destruct (is_quote_no_line_end q' Hq') as [Hlf Hcr].
  assert (Hstart : no_line_end (pre ++ repl) = true)
    by (rewrite no_line_end_app, Hpre, Hrepl; reflexivity).
  rewrite <- append_assoc.
  destruct tail as [|t tail].
  - rewrite append_nil_r. split.
    + apply no_line_end_is_line; [exact Hstart|].
      intros Hempty. apply append_empty in Hempty. contradiction.
    + rewrite (no_line_end_endswith _ Hstart).
      rewrite Hsplit.
      replace (pre ++ String q (body ++ String q' EmptyString))
        with ((pre ++ String q body) ++ String q' EmptyString)
        by (now rewrite append_assoc).
      rewrite endswith_suffix by discriminate. cbn [endswith].
      now rewrite Hlf.
  - cbn [is_line] in Hlast. rewrite Hlf, Hcr in Hlast. cbn [negb andb] in Hlast.
    split.
    + now apply is_line_prefix.
    + rewrite endswith_suffix by discriminate.
      rewrite Hsplit.
      replace (pre ++ String q (body ++ String q' (String t tail)))
        with ((pre ++ String q body ++ String q' EmptyString) ++ String t tail)
        by (now rewrite !append_assoc).
      now rewrite endswith_suffix by discriminate.
Qed.

(** *** The run *)

Lemma read_write_same (fs : list (string * string)) (f content : string) :
  read_file (write_file fs f content) f = Some content.
Proof.
  induction fs as [|[g old] fs IH]; simpl.
  - now rewrite String.eqb_refl.
  - destruct (String.eqb_spec g f) as [->|Hne]; simpl.
    + now rewrite String.eqb_refl.
    + destruct (String.eqb_spec g f); [contradiction|exact IH].
Qed.

Lemma read_write_other (fs : list (string * string)) (f g content : string) :
  f <> g -> read_file (write_file fs f content) g = read_file fs g.
Proof.
  intros Hne. induction fs as [|[h old] fs IH]; simpl.
  - destruct (String.eqb_spec f g); [contradiction|reflexivity].
  - destruct (String.eqb_spec h f) as [->|Hhf]; simpl.
    + destruct (String.eqb_spec f g); [contradiction|reflexivity].
    + destruct (String.eqb_spec h g); [reflexivity|exact IH].
Qed.

Lemma write_what_is_read (fs : list (string * string)) (f content : string) :
  read_file fs f = Some content -> write_file fs f content = fs.
Proof.
  induction fs as [|[g old] fs IH]; simpl; intros H; [discriminate|].
  destruct (String.eqb_spec g f) as [->|Hne].
  - now inversion H.
  - now rewrite IH.
Qed.

Lemma changes_of_settled (p : list atom) (ver f : string) (lines : list string) :
  quote_free ver = true ->
  changes p (fun _ => dquote ++ ver ++ dquote) f
    (map (re_sub p (fun _ => dquote ++ ver ++ dquote)) lines) = [].
Proof.
  intros Hver. unfold changes.
  induction lines as [|line lines IH]; [reflexivity|].
  cbn [map flat_map]. cbv zeta.
  rewrite re_sub_settles by assumption. rewrite String.eqb_refl. exact IH.
Qed.

Lemma map_re_sub_settles (p : list atom) (ver : string) (lines : list string) :
  quote_free ver = true ->
  map (re_sub p (fun _ => dquote ++ ver ++ dquote))
    (map (re_sub p (fun _ => dquote ++ ver ++ dquote)) lines) =
  map (re_sub p (fun _ => dquote ++ ver ++ dquote)) lines.
Proof.
  intros Hver. induction lines as [|line lines IH]; [reflexivity|].
  cbn [map]. now rewrite re_sub_settles, IH.
Qed.

Lemma append_same_prefix (s a b : string) : s ++ a = s ++ b -> a = b.
Proof.
  induction s as [|c s IH]; simpl; intros H; [exact H|].
  inversion H. now apply IH.
Qed.

(** The version file and the manual page are different files. *)
Lemma version_file_is_not_manpage (cwd : string) :
  os_path_join cwd "mirrorselect/version.py" <> os_path_join cwd "mirrorselect.8".
Proof.
  unfold os_path_join. cbn [prefix].
  destruct ((cwd =? EmptyString) || endswith "/" cwd); intros H.
  - apply append_same_prefix in H. discriminate.
  - apply append_same_prefix in H. discriminate.
Qed.

(** One call of [sub] on one file. *)
Lemma sub_one_file (parse_template : string -> option (string -> string))
    (ver f : string) (p : list atom) (st : SetupState) :
  sub parse_template ver [f] p st =
  match read_file (files st) f with
  | None => (st, Some (CannotOpen f))
  | Some content =>
      match replacement parse_template ver (text_lines content) with
      | None => (st, Some BadTemplate)
      | Some expand =>
          (mkSetupState
             (write_file (files st) f
                (writelines (map (re_sub p expand) (text_lines content))))
             (journal st ++ changes p expand f (text_lines content))%list, None)
      end
  end.
Proof.
  cbn [sub]. destruct (read_file (files st) f) as [content|]; [|reflexivity].
  now destruct (replacement parse_template ver (text_lines content)).
Qed.

(** A version that is plain has no backslash and no line end. *)
Lemma plain_version (ver : string) :
  not_plain ver = false ->
  contains (String (ascii_of_nat 92) EmptyString) ver = false /\
  no_line_end (dquote ++ ver ++ dquote) = true.
Proof.
  unfold not_plain. intros H.
  apply orb_false_elim in H. destruct H as [H Hcr].
  apply orb_false_elim in H. destruct H as [Hbs Hlf].
  split; [exact Hbs|].
  rewrite !no_line_end_app. change (no_line_end dquote) with true.
  rewrite andb_true_r. cbn [andb].
  unfold nl in Hlf. clear Hbs.
  induction ver as [|c ver IH]; [reflexivity|].
  rewrite contains_char in Hlf, Hcr.
  apply orb_false_elim in Hlf. destruct Hlf as [Hc1 Hlf].
  apply orb_false_elim in Hcr. destruct Hcr as [Hc2 Hcr].
  cbn [no_line_end]. rewrite (Ascii.eqb_sym c), Hc1, (Ascii.eqb_sym c), Hc2.
  cbn [negb andb]. now apply IH.
Qed.

(** With a version without backslash, the lines of a file are put through
    the substitution of the version between double quotes. *)
Lemma replacement_plain (parse_template : string -> option (string -> string))
    (ver : string) (lines : list string) :
  contains (String (ascii_of_nat 92) EmptyString) ver = false ->
  exists expand,
    replacement parse_template ver lines = Some expand /\
    forall p,
      map (re_sub p expand) lines =
        map (re_sub p (fun _ => dquote ++ ver ++ dquote)) lines /\
      forall f, changes p expand f lines =
                changes p (fun _ => dquote ++ ver ++ dquote) f lines.
Proof.
  intros Hver. destruct lines as [|line lines].
  - eexists. split; [reflexivity|]. intros p. split; [reflexivity|]. reflexivity.
  - exists (fun _ => dquote ++ ver ++ dquote). split.
    + cbn [replacement]. now apply compile_repl_plain.
    + intros p. split; [reflexivity|]. reflexivity.
Qed.

(** Read again, a file rewritten with a plain version gives the
    substituted lines. *)
Lemma text_lines_rewritten (p : list atom) (ver content : string) :
  not_plain ver = false ->
  text_lines (writelines (map (re_sub p (fun _ => dquote ++ ver ++ dquote))
                            (text_lines content))) =
  map (re_sub p (fun _ => dquote ++ ver ++ dquote)) (text_lines content).
Proof.
  intros Hver. apply plain_version in Hver. destruct Hver as [_ Hrepl].
  apply text_lines_writelines. apply file_lines_map.
  - intros line Hline. apply re_sub_keeps_line; [exact Hrepl| |exact Hline].
    unfold dquote. discriminate.
  - apply lines_from_file_lines.
Qed.

(** A run of [set_version] that succeeds, step by step. *)
Lemma set_version_run_succeeded
    (parse_template : string -> option (string -> string))
    (cwd : string) (VERSION PVR : option string) (st st1 : SetupState) :
  set_version_run parse_template cwd VERSION PVR st = (st1, None) ->
  let ver := set_version_ver VERSION PVR in
  let py := os_path_join cwd "mirrorselect/version.py" in
  let man := os_path_join cwd "mirrorselect.8" in
  exists python_text man_text python_expand man_expand,
    read_file (files st) py = Some python_text /\
    read_file (files st) man = Some man_text /\
    replacement parse_template ver (text_lines python_text) = Some python_expand /\
    replacement parse_template ver (text_lines man_text) = Some man_expand /\
    st1 = mkSetupState
            (write_file
               (write_file (files st) py
                  (writelines (map (re_sub python_re python_expand)
                                 (text_lines python_text))))
               man
               (writelines (map (re_sub man_re man_expand) (text_lines man_text))))
            (((journal st ++ [Printed ("Setting version to " ++ ver)])
              ++ changes python_re python_expand py (text_lines python_text))
             ++ changes man_re man_expand man (text_lines man_text))%list.
Proof.
  intros H ver py man. unfold set_version_run, python_scripts, manpage in H.
  fold ver py man in H. rewrite sub_one_file in H. cbn [files journal] in H.
  destruct (read_file (files st) py) as [python_text|] eqn:Hpy; [|discriminate H].
  destruct (replacement parse_template ver (text_lines python_text))
    as [python_expand|] eqn:E1; [|discriminate H].
  rewrite sub_one_file in H. cbn [files journal] in H.
  rewrite read_write_other in H by apply version_file_is_not_manpage.
  destruct (read_file (files st) man) as [man_text|] eqn:Hman; [|discriminate H].
  destruct (replacement parse_template ver (text_lines man_text))
    as [man_expand|] eqn:E2; [|discriminate H].
  inversion H. exists python_text, man_text, python_expand, man_expand.
  repeat split; assumption || reflexivity.
Qed.

(** X14.  A run of [set_version] that succeeds rewrites two files and no
    other: the version file and the manual page are read as lines, every
    line is put through the substitution of its pattern, and the lines are
    written back; every other file reads as before.  With a version
    without backslash and line end the replacement is the version between
    double quotes, and each of the two files then reads, line for line, as
    its old lines substituted: it keeps its number of lines. *)
Theorem set_version_rewrites_two_files
    (parse_template : string -> option (string -> string))
    (cwd : string) (VERSION PVR : option string) (st st1 : SetupState) :
  set_version_run parse_template cwd VERSION PVR st = (st1, None) ->
  let ver := set_version_ver VERSION PVR in
  let py := os_path_join cwd "mirrorselect/version.py" in
  let man := os_path_join cwd "mirrorselect.8" in
  exists python_text man_text python_expand man_expand new_python_text new_man_text,
    read_file (files st) py = Some python_text /\
    read_file (files st) man = Some man_text /\
    replacement parse_template ver (text_lines python_text) = Some python_expand /\
    replacement parse_template ver (text_lines man_text) = Some man_expand /\
    new_python_text =
      writelines (map (re_sub python_re python_expand) (text_lines python_text)) /\
    new_man_text =
      writelines (map (re_sub man_re man_expand) (text_lines man_text)) /\
    read_file (files st1) py = Some new_python_text /\
    read_file (files st1) man = Some new_man_text /\
    (forall f, f <> py -> f <> man -> read_file (files st1) f = read_file (files st) f) /\
    (not_plain ver = false ->
     text_lines new_python_text =
       map (re_sub python_re (fun _ => dquote ++ ver ++ dquote)) (text_lines python_text) /\
     text_lines new_man_text =
       map (re_sub man_re (fun _ => dquote ++ ver ++ dquote)) (text_lines man_text)).
Proof.
  intros H ver py man. apply set_version_run_succeeded in H.
  fold ver py man in H.
  destruct H as (python_text & man_text & python_expand & man_expand
                 & Hpy & Hman & E1 & E2 & ->).
  cbn [files].
  assert (Hne : py <> man) by apply version_file_is_not_manpage.
  exists python_text, man_text, python_expand, man_expand.
  do 2 eexists.
  split; [exact Hpy|]. split; [exact Hman|].
  split; [exact E1|]. split; [exact E2|].
  split; [reflexivity|]. split; [reflexivity|].
  split; [rewrite read_write_other by congruence; apply read_write_same|].
  split; [apply read_write_same|].
  split.
  - intros f H1 H2. rewrite !read_write_other by congruence. reflexivity.
  - intros Hver.
    destruct (plain_version _ Hver) as [Hbs _].
    destruct (replacement_plain parse_template ver (text_lines python_text) Hbs)
      as (e1 & He1 & Hsame1).
    destruct (replacement_plain parse_template ver (text_lines man_text) Hbs)
      as (e2 & He2 & Hsame2).
    rewrite E1 in He1. inversion He1; subst e1.
    rewrite E2 in He2. inversion He2; subst e2.
    rewrite (proj1 (Hsame1 python_re)), (proj1 (Hsame2 man_re)).
    split; now apply text_lines_rewritten.
Qed.

Lemma set_version_rewrites_two_files_witness :
  exists st1,
    set_version_run no_escapes "/src" (Some "2.3") None (mkSetupState sample_files [])
      = (st1, None) /\
    read_file (files st1) "/src/mirrorselect/version.py" =
      Some ("#!/usr/bin/python" ++ nl ++
            "version = " ++ dquote ++ "2.3" ++ dquote ++ "  # set by set_version" ++ nl) /\
    read_file (files st1) "/src/README" = Some ("version = '2.2.2'" ++ nl).
Proof.
  eexists. split; [vm_compute; reflexivity|].
  destruct (set_version_rewrites_two_files no_escapes "/src" (Some "2.3") None
              (mkSetupState sample_files []) _ eq_refl)
    as (python_text & man_text & python_expand & man_expand & new_python_text
        & new_man_text & Hpy & _ & E1 & _ & Hnew & _ & Hread & _ & Hothers & _).
  split.
  - etransitivity; [exact Hread|]. rewrite Hnew.
    vm_compute in Hpy. inversion Hpy; subst python_text.
    vm_compute in E1. inversion E1; subst python_expand. reflexivity.
  - etransitivity; [apply (Hothers "/src/README"); discriminate|reflexivity].
Defined.

(** X15.  For a version without quote, backslash and line end, running
    [set_version] again after a run that succeeded changes no file and
    logs no change: it only prints the version once more. *)
Theorem set_version_twice
    (parse_template : string -> option (string -> string))
    (cwd : string) (VERSION PVR : option string) (st st1 : SetupState) :
  quote_free (set_version_ver VERSION PVR) = true ->
  not_plain (set_version_ver VERSION PVR) = false ->
  set_version_run parse_template cwd VERSION PVR st = (st1, None) ->
  set_version_run parse_template cwd VERSION PVR st1 =
    (mkSetupState (files st1)
       (journal st1 ++
        [Printed ("Setting version to " ++ set_version_ver VERSION PVR)])%list,
     None).
Proof.
  intros Hquote Hplain H. apply set_version_run_succeeded in H.
  set (ver := set_version_ver VERSION PVR) in *.
  set (py := os_path_join cwd "mirrorselect/version.py") in *.
  set (man := os_path_join cwd "mirrorselect.8") in *.
  destruct H as (python_text & man_text & python_expand & man_expand
                 & Hpy & Hman & E1 & E2 & ->).
  assert (Hne : py <> man) by apply version_file_is_not_manpage.
  destruct (plain_version _ Hplain) as [Hbs _].
  destruct (replacement_plain parse_template ver (text_lines python_text) Hbs)
    as (e1 & He1 & Hsame1).
  destruct (replacement_plain parse_template ver (text_lines man_text) Hbs)
    as (e2 & He2 & Hsame2).
  rewrite E1 in He1. inversion He1; subst e1.
  rewrite E2 in He2. inversion He2; subst e2.
  rewrite (proj1 (Hsame1 python_re)), (proj1 (Hsame2 man_re)).
  rewrite (proj2 (Hsame1 python_re) py), (proj2 (Hsame2 man_re) man).
  set (lit := fun _ : string => dquote ++ ver ++ dquote).
  set (new_python := writelines (map (re_sub python_re lit) (text_lines python_text))).
  set (new_man := writelines (map (re_sub man_re lit) (text_lines man_text))).
  set (fs1 := write_file (write_file (files st) py new_python) man new_man).
  assert (R1 : read_file fs1 py = Some new_python).
  { unfold fs1. rewrite read_write_other by congruence. apply read_write_same. }
  assert (R2 : read_file fs1 man = Some new_man) by apply read_write_same.
  assert (L1 : text_lines new_python = map (re_sub python_re lit) (text_lines python_text))
    by (now apply text_lines_rewritten).
  assert (L2 : text_lines new_man = map (re_sub man_re lit) (text_lines man_text))
    by (now apply text_lines_rewritten).
  unfold set_version_run, python_scripts, manpage. fold ver py man.
  cbn [files journal].
  rewrite sub_one_file. cbn [files journal]. rewrite R1, L1.
  destruct (replacement_plain parse_template ver
              (map (re_sub python_re lit) (text_lines python_text)) Hbs)
    as (e3 & -> & Hsame3).
  rewrite (proj1 (Hsame3 python_re)), (proj2 (Hsame3 python_re) py).
  fold lit. unfold lit at 1 2 4 5.
  rewrite map_re_sub_settles, changes_of_settled by assumption.
  fold lit. fold new_python. rewrite (write_what_is_read _ _ _ R1).
  rewrite sub_one_file. cbn [files journal]. rewrite R2, L2.
  destruct (replacement_plain parse_template ver
              (map (re_sub man_re lit) (text_lines man_text)) Hbs)
    as (e4 & -> & Hsame4).
  rewrite (proj1 (Hsame4 man_re)), (proj2 (Hsame4 man_re) man).
  fold lit. unfold lit at 1 2 4 5.
  rewrite map_re_sub_settles, changes_of_settled by assumption.
  fold lit. fold new_man. rewrite (write_what_is_read _ _ _ R2).
  now rewrite !app_nil_r.
Qed.

Lemma set_version_twice_witness :
  exists st1,
    set_version_run no_escapes "/src" None None (mkSetupState sample_files [])
      = (st1, None) /\
    set_version_run no_escapes "/src" None None st1 =
      (mkSetupState (files st1) (journal st1 ++ [Printed "Setting version to git"])%list,
       None).
Proof.
  eexists. split; [vm_compute; reflexivity|].
  apply (set_version_twice no_escapes "/src" None None (mkSetupState sample_files [])).
  - reflexivity.
  - reflexivity.
  - vm_compute. reflexivity.
Defined.


